(** * Banker's algorithm: the [BankersAlgorithm] class of [Banker.cpp]

    A shallow embedding of the class and of its three methods
    [requestResources], [releaseResources] and [isSafeState], followed by
    the properties of the resource manager.

    Modelling conventions.
    - A [vector<T>] is a [list T]; [v[i]] is the lookup [v !! i].  The
      class only ever indexes with [operator[]], which has undefined
      behaviour out of range: every access is a partial operation and the
      methods live in the [option] monad, [None] standing for undefined
      behaviour.
    - An [int] holding a resource quantity is a [Z]; [+], [-], [+=] and
      [-=] on such values are checked against the 32-bit range, signed
      overflow being undefined behaviour as well.
    - Sizes, loop counters and the [count] of [isSafeState] never exceed a
      vector length and are natural numbers.
    - The mutex and the condition variable are not modelled: the methods
      are described as they run under the lock, one call at a time. *)

From Stdlib Require Import ZArith Lia.
From stdpp Require Import base tactics option list list_numbers.

Module BankersAlgorithm.

(** ** Machine integers and vectors *)

Definition INT_MIN : Z := (-2147483648)%Z.
Definition INT_MAX : Z := 2147483647%Z.

Definition int_fits (z : Z) : bool := ((INT_MIN <=? z) && (z <=? INT_MAX))%Z.

Definition checked (z : Z) : option Z := if int_fits z then Some z else None.

Definition int_add (a b : Z) : option Z := checked (a + b).
Definition int_sub (a b : Z) : option Z := checked (a - b).

(** An [int] used as a subscript is converted to [size_t]: a negative value
    becomes a huge index, which is out of range for every vector. *)
Definition index (i : Z) : option nat :=
  if (i <? 0)%Z then None else Some (Z.to_nat i).

(** [v[i] = x] *)
Definition vset {A} (v : list A) (i : nat) (x : A) : option (list A) :=
  if decide (i < length v) then Some (<[i:=x]> v) else None.

(** [for (int i = 0; i < n; ++i) body(i)] over a loop state [St]. *)
Fixpoint for_loop {St} (n : nat) (body : nat → St → option St) (s : St) : option St :=
  match n with
  | 0 => Some s
  | S k => s' ← for_loop k body s; body k s'
  end.

(** ** The object state *)

Record Banker := mkBanker {
  allocation : list (list Z);
  max : list (list Z);
  available : list Z;
  resources : list Z;
  completed : list bool
}.

(** ** Constructor *)

(** [resources[j] += allocation[i][j]] *)
Definition add_cell (alloc : list (list Z)) (i j : nat) (acc : list Z) : option (list Z) :=
  row ← alloc !! i;
  a ← row !! j;
  r ← acc !! j;
  r' ← int_add r a;
  vset acc j r'.

Definition construct (allocation0 max0 : list (list Z)) (available0 : list Z) : option Banker :=
  let numProcesses := length allocation0 in
  row0 ← allocation0 !! 0;
  let numResources := length row0 in
  res ← for_loop numProcesses
          (λ i res, for_loop numResources (add_cell allocation0 i) res)
          (replicate numResources 0%Z);
  Some (mkBanker allocation0 max0 available0 res (replicate numProcesses false)).

(** ** [isSafeState] *)

(** [need[i][j] = max[i][j] - allocation[i][j]] *)
Definition need_cell (b : Banker) (i j : nat) (need : list (list Z)) : option (list (list Z)) :=
  mrow ← max b !! i;
  m ← mrow !! j;
  arow ← allocation b !! i;
  a ← arow !! j;
  d ← int_sub m a;
  nrow ← need !! i;
  nrow' ← vset nrow j d;
  vset need i nrow'.

Definition need_matrix (b : Banker) (numProcesses numResources : nat) : option (list (list Z)) :=
  for_loop numProcesses
    (λ i need, for_loop numResources (need_cell b i) need)
    (replicate numProcesses (replicate numResources 0%Z)).

(** The inner comparison loop, from column [j] on, [cnt] columns left:
    [if (need[i][j] > work[j]) { canExecute = false; break; }] *)
Fixpoint can_execute (need_i work : list Z) (j cnt : nat) : option bool :=
  match cnt with
  | 0 => Some true
  | S c =>
      n ← need_i !! j;
      w ← work !! j;
      if (n >? w)%Z then Some false else can_execute need_i work (S j) c
  end.

(** The locals of [isSafeState] that the [do ... while] loop updates. *)
Record scan := mkScan {
  safe : list bool;
  work : list Z;
  finished : bool;
  count : nat
}.

(** [work[j] += allocation[i][j]] *)
Definition work_cell (b : Banker) (i j : nat) (w : list Z) : option (list Z) :=
  wj ← w !! j;
  row ← allocation b !! i;
  a ← row !! j;
  s ← int_add wj a;
  vset w j s.

(** Body of [for (int i = 0; i < numProcesses; ++i)]. *)
Definition scan_body (b : Banker) (need : list (list Z)) (numResources : nat)
    (i : nat) (st : scan) : option scan :=
  s ← safe st !! i;
  if s : bool then Some st
  else
    need_i ← need !! i;
    canExecute ← can_execute need_i (work st) 0 numResources;
    if canExecute : bool then
      safe' ← vset (safe st) i true;
      work' ← for_loop numResources (work_cell b i) (work st);
      Some (mkScan safe' work' false (S (count st)))
    else Some st.

(** One iteration of the [do] block: [finished = true] and the scan. *)
Definition scan_pass (b : Banker) (need : list (list Z)) (numProcesses numResources : nat)
    (st : scan) : option scan :=
  for_loop numProcesses (scan_body b need numResources)
    (mkScan (safe st) (work st) true (count st)).

Inductive loop_result :=
  | Exited (st : scan)
  | Faulted
  | OutOfFuel.

(** [do { ... } while (!finished && count < numProcesses);]
    The recursion is on [fuel], a bound on the number of passes; a pass
    that does not end the loop has raised [count], so [numProcesses + 1]
    passes are never exceeded (lemma [do_while_fuel] below). *)
Fixpoint do_while (fuel : nat) (b : Banker) (need : list (list Z))
    (numProcesses numResources : nat) (st : scan) : loop_result :=
  match fuel with
  | 0 => OutOfFuel
  | S fuel' =>
      match scan_pass b need numProcesses numResources st with
      | None => Faulted
      | Some st' =>
          if negb (finished st') && (count st' <? numProcesses)
          then do_while fuel' b need numProcesses numResources st'
          else Exited st'
      end
  end.

(** The locals before the loop; [finished] is declared without a value
    and assigned at the top of every pass before it is read. *)
Definition scan_init (b : Banker) (numProcesses : nat) : scan :=
  mkScan (replicate numProcesses false) (available b) false 0.

(** The method reads the members and writes none of them. *)
Definition isSafeState (b : Banker) : option bool :=
  let numProcesses := length (allocation b) in
  row0 ← allocation b !! 0;
  let numResources := length row0 in
  need ← need_matrix b numProcesses numResources;
  match do_while (S numProcesses) b need numProcesses numResources
          (scan_init b numProcesses) with
  | Exited st =>
      if count st <? numProcesses then Some false
      else Some (forallb id (safe st))
  | Faulted | OutOfFuel => None
  end.

(** ** [requestResources] *)

(** The admission loop, from position [i] on, [cnt] positions left; [true]
    when some iteration takes the [return false].  The right operand of
    [||] is evaluated only when the left one is false. *)
Fixpoint exceeds (b : Banker) (processId : Z) (request : list Z) (i cnt : nat) : option bool :=
  match cnt with
  | 0 => Some false
  | S c =>
      r ← request !! i;
      p ← index processId;
      mrow ← max b !! p;
      m ← mrow !! i;
      arow ← allocation b !! p;
      a ← arow !! i;
      d ← int_sub m a;
      if (r >? d)%Z then Some true
      else
        av ← available b !! i;
        if (r >? av)%Z then Some true
        else exceeds b processId request (S i) c
  end.

(** [tempAllocation[processId][i] += request[i];
     tempAvailable[i] -= request[i]; tempResources[i] -= request[i];] *)
Definition tentative (processId : Z) (request : list Z) (i : nat)
    (t : list (list Z) * list Z * list Z) : option (list (list Z) * list Z * list Z) :=
  let '(tempAllocation, tempAvailable, tempResources) := t in
  p ← index processId;
  row ← tempAllocation !! p;
  a ← row !! i;
  r ← request !! i;
  a' ← int_add a r;
  row' ← vset row i a';
  tempAllocation' ← vset tempAllocation p row';
  av ← tempAvailable !! i;
  av' ← int_sub av r;
  tempAvailable' ← vset tempAvailable i av';
  rs ← tempResources !! i;
  rs' ← int_sub rs r;
  tempResources' ← vset tempResources i rs';
  Some (tempAllocation', tempAvailable', tempResources').

(** [available[i] += request[i]; resources[i] += request[i];] *)
Definition give_back (request : list Z) (i : nat) (t : list Z * list Z) : option (list Z * list Z) :=
  let '(avail, res) := t in
  av ← avail !! i;
  r ← request !! i;
  av' ← int_add av r;
  avail' ← vset avail i av';
  rs ← res !! i;
  rs' ← int_add rs r;
  res' ← vset res i rs';
  Some (avail', res').

Definition requestResources (processId : Z) (request : list Z) (b : Banker)
    : option (bool * Banker) :=
  refused ← exceeds b processId request 0 (length request);
  if refused : bool then Some (false, b)
  else
    '(tempAllocation, tempAvailable, tempResources) ←
      for_loop (length request) (tentative processId request)
        (allocation b, available b, resources b);
    tempBanker ← construct tempAllocation (max b) tempAvailable;
    safeState ← isSafeState tempBanker;
    if safeState : bool then
      p ← index processId;
      completed' ← vset (completed b) p true;
      '(available', resources') ←
        for_loop (length request) (give_back request) (tempAvailable, tempResources);
      Some (true, mkBanker tempAllocation (max b) available' resources' completed')
    else Some (false, b).

(** ** [releaseResources] *)

(** [allocation[processId][i] -= release[i]; available[i] += release[i];
     resources[i] += release[i];] *)
Definition release_cell (processId : Z) (release : list Z) (i : nat) (b : Banker) : option Banker :=
  p ← index processId;
  row ← allocation b !! p;
  a ← row !! i;
  r ← release !! i;
  a' ← int_sub a r;
  row' ← vset row i a';
  allocation' ← vset (allocation b) p row';
  av ← available b !! i;
  av' ← int_add av r;
  available' ← vset (available b) i av';
  rs ← resources b !! i;
  rs' ← int_add rs r;
  resources' ← vset (resources b) i rs';
  Some (mkBanker allocation' (max b) available' resources' (completed b)).

Definition releaseResources (processId : Z) (release : list Z) (b : Banker)
    : option (unit * Banker) :=
  b' ← for_loop (length release) (release_cell processId release) b;
  p ← index processId;
  completed' ← vset (completed b') p false;
  Some (tt, mkBanker (allocation b') (max b') (available b') (resources b') completed').

(** ** The demonstration data of [runScenarios] *)

Definition scenario_allocation : list (list Z) :=
  [[0; 1; 0]; [2; 0; 0]; [3; 0; 2]; [2; 1; 1]; [0; 0; 2]]%Z.
Definition scenario_max : list (list Z) :=
  [[7; 5; 3]; [3; 2; 2]; [9; 0; 2]; [2; 2; 2]; [4; 3; 3]]%Z.
Definition scenario_available : list Z := [3; 3; 2]%Z.

(** The object [bankers] as the constructor leaves it, and as it is after
    the first request of the scenario has been granted. *)
Definition scenario_banker : Banker :=
  mkBanker scenario_allocation scenario_max scenario_available
    [7; 2; 5]%Z [false; false; false; false; false].

Definition scenario_granted : Banker :=
  mkBanker [[0; 1; 0]; [3; 0; 2]; [3; 0; 2]; [2; 1; 1]; [0; 0; 2]]%Z
    scenario_max scenario_available
    [7; 2; 5]%Z [false; true; false; false; false].

(** One process that holds nothing, may claim one unit, and finds none
    available: the smallest state that is not safe. *)
Definition starved : Banker :=
  mkBanker [[0]]%Z [[1]]%Z [0]%Z [0]%Z [false].

(** ** Vocabulary of the properties *)

Definition numProcesses (b : Banker) : nat := length (allocation b).
Definition numResources (b : Banker) : nat :=
  from_option length 0 (allocation b !! 0).

(** [v[r]] and [M[p][r]] as total functions, 0 outside the vector. *)
Definition entry (v : list Z) (r : nat) : Z := default 0%Z (v !! r).
Definition cell (M : list (list Z)) (p r : nat) : Z :=
  default 0%Z (row ← M !! p; row !! r).

(** The first [k] entries of [v], 0 from [k] on: what a loop over [v] has
    consumed after [k] iterations. *)
Definition upto (k : nat) (v : list Z) (j : nat) : Z :=
  if decide (j < k) then entry v j else 0%Z.

(** The same for the row of process [processId] in a table. *)
Definition upto_row (processId : Z) (k : nat) (v : list Z) (q j : nat) : Z :=
  if decide (index processId = Some q) then upto k v j else 0%Z.

(** Need = maxClaim - allocation. *)
Definition Need (b : Banker) (p r : nat) : Z :=
  (cell (max b) p r - cell (allocation b) p r)%Z.

(** Units of resource [r] held by the processes listed in [ps]. *)
Definition held (b : Banker) (r : nat) (ps : list nat) : Z :=
  foldr (λ p acc, (cell (allocation b) p r + acc)%Z) 0%Z ps.

(** [sum_p allocation[p][r] + available[r]] *)
Definition total (b : Banker) (r : nat) : Z :=
  (held b r (seq 0 (numProcesses b)) + entry (available b) r)%Z.

(** The work vector met by the [k]-th process of the ordering [order]:
    [available] plus the allocations of the processes finished earlier. *)
Definition work_before (b : Banker) (order : list nat) (k r : nat) : Z :=
  (entry (available b) r + held b r (take k order))%Z.

(** An ordering of all processes along which every Need is covered. *)
Definition safe_ordering (b : Banker) (order : list nat) : Prop :=
  order ≡ₚ seq 0 (numProcesses b) ∧
  ∀ k p, order !! k = Some p →
    ∀ r, r < numResources b → (Need b p r ≤ work_before b order k r)%Z.

(** Process [p] can run to completion with the work vector [w]. *)
Definition executable (b : Banker) (p : nat) (w : list Z) : Prop :=
  ∀ r, r < numResources b → (Need b p r ≤ entry w r)%Z.

(** What the scan of [isSafeState] maintains: the processes marked so far,
    in the order [order] in which they were marked, form a run along which
    every Need was covered, and [work] is what that run has accumulated. *)
Definition scan_invariant (b : Banker) (st : scan) : Prop :=
  length (safe st) = numProcesses b ∧
  length (work st) = numResources b ∧
  ∃ order,
    NoDup order ∧
    (∀ p, p ∈ order ↔ safe st !! p = Some true) ∧
    length order = count st ∧
    (∀ r, r < numResources b →
       entry (work st) r = (entry (available b) r + held b r order)%Z) ∧
    (∀ k p, order !! k = Some p →
       ∀ r, r < numResources b → (Need b p r ≤ work_before b order k r)%Z).

(** Shape of the three tables. *)
Definition rectangular (b : Banker) : Prop :=
  0 < numProcesses b ∧
  Forall (λ row, length row = numResources b) (allocation b) ∧
  length (max b) = numProcesses b ∧
  Forall (λ row, length row = numResources b) (max b) ∧
  length (available b) = numResources b.

(** Allocations are counts of units. *)
Definition nonneg_allocation (b : Banker) : Prop :=
  ∀ p r, (0 ≤ cell (allocation b) p r)%Z.

(** The quantities [isSafeState] reads and computes are representable as
    [int]: every Need, every sum of allocations on top of [available], and
    the claims themselves. *)
Definition representable (b : Banker) : Prop :=
  (∀ p r, p < numProcesses b → r < numResources b →
     (INT_MIN ≤ Need b p r ≤ INT_MAX)%Z) ∧
  (∀ r, r < numResources b →
     (INT_MIN ≤ entry (available b) r)%Z ∧ (total b r ≤ INT_MAX)%Z) ∧
  (∀ p r, (cell (max b) p r ≤ INT_MAX)%Z).

Definition well_formed (b : Banker) : Prop :=
  rectangular b ∧ nonneg_allocation b ∧ representable b.

(** The state of the scan after [k] iterations of the [do] block. *)
Fixpoint passes (b : Banker) (need : list (list Z)) (k : nat) : option scan :=
  match k with
  | 0 => Some (scan_init b (numProcesses b))
  | S k' =>
      st ← passes b need k';
      scan_pass b need (numProcesses b) (numResources b) st
  end.

(** The error kinds of the interface description and what a caller can
    observe of one call.  The class contains no [throw] and no checked
    access: [call] never yields [Throws]. *)
Inductive Error :=
  | InvalidStateError
  | UnknownProcessError
  | DimensionMismatchError
  | InvalidReleaseError.

Inductive outcome (A : Type) :=
  | Returns (a : A) (b' : Banker)
  | Throws (e : Error) (b' : Banker)
  | Undefined.
Arguments Returns {A} a b'.
Arguments Throws {A} e b'.
Arguments Undefined {A}.

Definition call {A} (r : option (A * Banker)) : outcome A :=
  match r with
  | Some (a, b') => Returns a b'
  | None => Undefined
  end.

(** A request or a release, and a sequence of them run on one object.
    Next to the final state, [run] returns the sum, for resource [r], of
    the demands that were granted on the way. *)
Inductive operation :=
  | Request (processId : Z) (demand : list Z)
  | Release (processId : Z) (amounts : list Z).

Fixpoint run (ops : list operation) (r : nat) (b : Banker) : option (Z * Banker) :=
  match ops with
  | [] => Some (0%Z, b)
  | Request processId demand :: ops' =>
      '(ok, b1) ← requestResources processId demand b;
      '(g, b2) ← run ops' r b1;
      Some (((if ok : bool then entry demand r else 0) + g)%Z, b2)
  | Release processId amounts :: ops' =>
      '(_, b1) ← releaseResources processId amounts b;
      run ops' r b1
  end.

(** ** Vocabulary of the further properties *)

(** Sum of column [r] of a table over the rows listed in [ps]. *)
Definition column (M : list (list Z)) (r : nat) (ps : list nat) : Z :=
  foldr (λ p acc, (cell M p r + acc)%Z) 0%Z ps.

(** Number of flags set in a vector of flags. *)
Fixpoint marked (flags : list bool) : nat :=
  match flags with
  | [] => 0
  | s :: rest => (if s : bool then 1 else 0) + marked rest
  end.

(** The tables a request is judged on: the row of process [p] raised by
    the demand, [available] lowered by it (a demand shorter than the row
    leaves the remaining entries alone). *)
Definition tentative_allocation (b : Banker) (p : nat) (request : list Z) : list (list Z) :=
  alter (imap (λ j a, (a + entry request j)%Z)) p (allocation b).

Definition tentative_available (b : Banker) (request : list Z) : list Z :=
  imap (λ j a, (a - entry request j)%Z) (available b).

Definition hypothetical (b : Banker) (p : nat) (request : list Z) : Banker :=
  mkBanker (tentative_allocation b p request) (max b) (tentative_available b request)
    (resources b) (completed b).

(** The state a granted request leaves. *)
Definition granted (b : Banker) (p : nat) (request : list Z) : Banker :=
  mkBanker (tentative_allocation b p request) (max b) (available b)
    (resources b) (<[p:=true]> (completed b)).

(** The amounts of resource [r] that the releases of a sequence of calls
    give back. *)
Fixpoint released (ops : list operation) (r : nat) : Z :=
  match ops with
  | [] => 0%Z
  | Request _ _ :: ops' => released ops' r
  | Release _ amounts :: ops' => (entry amounts r + released ops' r)%Z
  end.

(** What the scan maintains on any state, rectangular or not: the marked
    processes, in the order in which they were marked, form a run along
    which every Need was covered, and the first [numResources] entries of
    [work] are what that run has accumulated. *)
Definition scan_sound (b : Banker) (st : scan) : Prop :=
  length (safe st) = numProcesses b ∧
  ∃ order,
    NoDup order ∧
    (∀ p, p ∈ order ↔ safe st !! p = Some true) ∧
    length order = count st ∧
    (∀ r, r < numResources b →
       entry (work st) r = (entry (available b) r + held b r order)%Z) ∧
    (∀ k p, order !! k = Some p →
       ∀ r, r < numResources b → (Need b p r ≤ work_before b order k r)%Z).

End BankersAlgorithm.

Import BankersAlgorithm.

(** * Basic facts about the building blocks *)

Lemma checked_Some z z' :
  checked z = Some z' ↔ z' = z ∧ (INT_MIN ≤ z ≤ INT_MAX)%Z.
Proof.
  unfold checked, int_fits.
  destruct (Z.leb_spec INT_MIN z), (Z.leb_spec z INT_MAX); simpl;
    split; intros H'; try discriminate; try (destruct H'; lia);
    [inversion H'; split; [reflexivity | lia] | destruct H' as [-> _]; reflexivity].
Qed.

Lemma int_add_Some a c z :
  int_add a c = Some z ↔ z = (a + c)%Z ∧ (INT_MIN ≤ a + c ≤ INT_MAX)%Z.
Proof. apply checked_Some. Qed.

Lemma int_sub_Some a c z :
  int_sub a c = Some z ↔ z = (a - c)%Z ∧ (INT_MIN ≤ a - c ≤ INT_MAX)%Z.
Proof. apply checked_Some. Qed.

Lemma index_Some i p : index i = Some p ↔ (0 ≤ i)%Z ∧ p = Z.to_nat i.
Proof.
  unfold index. destruct (Z.ltb_spec i 0); split; intros H'.
  - discriminate.
  - lia.
  - inversion H'. split; [lia | reflexivity].
  - destruct H' as [_ ->]. reflexivity.
Qed.

Lemma vset_Some {A} (v v' : list A) i x :
  vset v i x = Some v' ↔ i < length v ∧ v' = <[i:=x]> v.
Proof.
  unfold vset. destruct (decide (i < length v)); split; intros H'.
  - inversion H'. auto.
  - destruct H' as [_ ->]. reflexivity.
  - discriminate.
  - destruct H'. lia.
Qed.

Lemma vset_lt {A} (v : list A) i x : i < length v → vset v i x = Some (<[i:=x]> v).
Proof. intros. apply vset_Some. auto. Qed.

Lemma bind_Some_inv {A B} (m : option A) (f : A → option B) y :
  m ≫= f = Some y → ∃ x, m = Some x ∧ f x = Some y.
Proof. destruct m as [x|]; simpl; [eauto | discriminate]. Qed.

(** Splits a hypothesis [x ← m; k = Some y] into [m = Some x] and the rest. *)
Ltac bind_inv H :=
  repeat
    (let x := fresh "x" in
     let E := fresh "E" in
     apply bind_Some_inv in H; destruct H as (x & E & H)).

(** Loop rules: an invariant carried through the iterations, for a loop
    known to return and for a loop whose body always returns. *)
Lemma for_loop_inv {St} (P : nat → St → Prop) n (body : nat → St → option St) s s' :
  for_loop n body s = Some s' →
  P 0 s →
  (∀ i t t', i < n → P i t → body i t = Some t' → P (S i) t') →
  P n s'.
Proof.
  revert s'. induction n as [|n IH]; intros s' Hrun H0 Hstep; simpl in Hrun.
  - inversion Hrun. subst. exact H0.
  - apply bind_Some_inv in Hrun. destruct Hrun as (t & Ht & Hb).
    apply (Hstep n t s'); [lia | | exact Hb].
    apply IH; [exact Ht | exact H0 |].
    intros i u u' Hi. apply Hstep. lia.
Qed.

Lemma for_loop_total {St} (P : nat → St → Prop) n (body : nat → St → option St) s :
  P 0 s →
  (∀ i t, i < n → P i t → ∃ t', body i t = Some t' ∧ P (S i) t') →
  ∃ s', for_loop n body s = Some s' ∧ P n s'.
Proof.
  intros H0. induction n as [|n IH]; intros Hstep; simpl.
  - eauto.
  - destruct IH as (t & Ht & HP).
    { intros i u Hi. apply Hstep. lia. }
    rewrite Ht. simpl. apply Hstep; [lia | exact HP].
Qed.

Lemma call_never_throws {A} (r : option (A * Banker)) e b' : call r ≠ Throws e b'.
Proof. destruct r as [[a b'']|]; discriminate. Qed.

(** * Denied requests *)

Lemma requestResources_false processId request b b' :
  requestResources processId request b = Some (false, b') → b' = b.
Proof.
  unfold requestResources. intros H.
  apply bind_Some_inv in H. destruct H as ([] & _ & H).
  - congruence.
  - apply bind_Some_inv in H. destruct H as ([[tA tAv] tRs] & _ & H).
    apply bind_Some_inv in H. destruct H as (tb & _ & H).
    apply bind_Some_inv in H. destruct H as ([] & _ & H).
    + bind_inv H. destruct x1. discriminate.
    + congruence.
Qed.

(** * Reading vectors and tables through [entry] and [cell] *)

Lemma entry_lookup v j x : v !! j = Some x → entry v j = x.
Proof. unfold entry. intros ->. reflexivity. Qed.

Lemma entry_ge v j : length v ≤ j → entry v j = 0%Z.
Proof. intros H. unfold entry. rewrite lookup_ge_None_2; [reflexivity | exact H]. Qed.

Lemma lookup_entry v j : j < length v → v !! j = Some (entry v j).
Proof.
  intros H. destruct (lookup_lt_is_Some_2 v j H) as [x Hx].
  rewrite (entry_lookup _ _ _ Hx). exact Hx.
Qed.

Lemma entry_insert v i x j :
  i < length v → entry (<[i:=x]> v) j = if decide (j = i) then x else entry v j.
Proof.
  intros Hi. unfold entry. destruct (decide (j = i)) as [->|Hne].
  - rewrite list_lookup_insert_eq; [reflexivity | exact Hi].
  - rewrite list_lookup_insert_ne; [reflexivity | congruence].
Qed.

Lemma entry_ext v w :
  length v = length w → (∀ j, entry v j = entry w j) → v = w.
Proof.
  intros Hlen Hall. apply list_eq. intros j.
  destruct (decide (j < length v)) as [Hj|Hj].
  - rewrite (lookup_entry v j Hj), (lookup_entry w j); [| lia].
    rewrite Hall. reflexivity.
  - rewrite !lookup_ge_None_2; [reflexivity | lia | lia].
Qed.

Lemma cell_lookup M p row j x : M !! p = Some row → row !! j = Some x → cell M p j = x.
Proof. unfold cell. intros -> H. simpl. rewrite H. reflexivity. Qed.

Lemma cell_row M p row j : M !! p = Some row → cell M p j = entry row j.
Proof. unfold cell, entry. intros ->. reflexivity. Qed.

Lemma cell_insert M p row i x q j :
  M !! p = Some row → i < length row →
  cell (<[p := <[i:=x]> row]> M) q j =
    if decide (q = p ∧ j = i) then x else cell M q j.
Proof.
  intros Hrow Hi. pose proof (lookup_lt_Some _ _ _ Hrow) as Hp.
  destruct (decide (q = p)) as [->|Hq].
  - rewrite (cell_row _ p (<[i:=x]> row)); [| apply list_lookup_insert_eq; exact Hp].
    rewrite entry_insert; [| exact Hi].
    rewrite (cell_row _ _ _ _ Hrow).
    destruct (decide (j = i)), (decide (p = p ∧ j = i)); try reflexivity; tauto.
  - unfold cell. rewrite list_lookup_insert_ne; [| congruence].
    destruct (decide (q = p ∧ j = i)); [tauto | reflexivity].
Qed.

Lemma lengths_insert (M : list (list Z)) p row i x :
  M !! p = Some row → length <$> <[p := <[i:=x]> row]> M = length <$> M.
Proof.
  intros Hrow. rewrite list_fmap_insert, length_insert.
  apply list_insert_id. rewrite list_lookup_fmap, Hrow. reflexivity.
Qed.

Lemma lengths_length (M N : list (list Z)) :
  length <$> M = length <$> N → length M = length N.
Proof. intros H. rewrite <- (length_fmap length M), H. apply length_fmap. Qed.

Lemma lengths_row (M N : list (list Z)) p row :
  length <$> M = length <$> N → M !! p = Some row →
  ∃ row', N !! p = Some row' ∧ length row' = length row.
Proof.
  intros H Hrow.
  assert ((length <$> N) !! p = Some (length row)) as Hn.
  { rewrite <- H, list_lookup_fmap, Hrow. reflexivity. }
  rewrite list_lookup_fmap in Hn.
  destruct (N !! p) as [row'|]; [| discriminate].
  inversion Hn. eauto.
Qed.

(** Turns the successful steps of a loop body into equations on its values. *)
Ltac unpack :=
  repeat match goal with
  | H : vset _ _ _ = Some _ |- _ => apply vset_Some in H; destruct H as [? ->]
  | H : int_add _ _ = Some _ |- _ => apply int_add_Some in H; destruct H as [-> ?]
  | H : int_sub _ _ = Some _ |- _ => apply int_sub_Some in H; destruct H as [-> ?]
  end.

Ltac read_entries :=
  repeat match goal with
  | Hrow : ?M !! ?p = Some ?row, Hr : ?row !! ?i = Some _ |- _ =>
      lazymatch type of M with
      | list (list Z) =>
          lazymatch goal with
          | _ : cell M p i = _ |- _ => fail
          | _ => pose proof (cell_lookup _ _ _ _ _ Hrow Hr)
          end
      end
  | Hr : ?v !! ?i = Some ?x |- _ =>
      lazymatch type of x with
      | Z =>
          lazymatch goal with
          | _ : entry v i = _ |- _ => fail
          | _ => pose proof (entry_lookup _ _ _ Hr)
          end
      end
  end.

Lemma upto_0 v j : upto 0 v j = 0%Z.
Proof. unfold upto. case_decide; [lia | reflexivity]. Qed.

Lemma upto_S k v j :
  upto (S k) v j = if decide (j = k) then entry v k else upto k v j.
Proof. unfold upto. repeat case_decide; subst; try reflexivity; lia. Qed.

Lemma upto_length v j : upto (length v) v j = entry v j.
Proof.
  unfold upto. case_decide; [reflexivity |].
  symmetry. apply entry_ge. lia.
Qed.

Lemma upto_row_0 pid v q j : upto_row pid 0 v q j = 0%Z.
Proof. unfold upto_row. case_decide; [apply upto_0 | reflexivity]. Qed.

Lemma upto_row_S pid k v q j :
  upto_row pid (S k) v q j =
    if decide (index pid = Some q ∧ j = k) then entry v k else upto_row pid k v q j.
Proof.
  unfold upto_row. rewrite upto_S.
  repeat case_decide; destruct_and?; subst; try reflexivity; tauto.
Qed.

(** * The loops of [requestResources] and [releaseResources] *)

Lemma tentative_loop pid req alloc avail res k tA tAv tRs :
  for_loop k (tentative pid req) (alloc, avail, res) = Some (tA, tAv, tRs) →
  length <$> tA = length <$> alloc ∧
  length tAv = length avail ∧
  length tRs = length res ∧
  (0 < k → ∃ p, index pid = Some p ∧ p < length alloc) ∧
  (∀ q j, cell tA q j = (cell alloc q j + upto_row pid k req q j)%Z) ∧
  (∀ j, entry tAv j = (entry avail j - upto k req j)%Z) ∧
  (∀ j, entry tRs j = (entry res j - upto k req j)%Z).
Proof.
  intros Hrun.
  apply (for_loop_inv (λ i t,
    length <$> t.1.1 = length <$> alloc ∧
    length t.1.2 = length avail ∧
    length t.2 = length res ∧
    (0 < i → ∃ p, index pid = Some p ∧ p < length alloc) ∧
    (∀ q j, cell t.1.1 q j = (cell alloc q j + upto_row pid i req q j)%Z) ∧
    (∀ j, entry t.1.2 j = (entry avail j - upto i req j)%Z) ∧
    (∀ j, entry t.2 j = (entry res j - upto i req j)%Z))
    _ _ _ _ Hrun).
  - simpl. repeat split; try reflexivity; intros;
      rewrite ?upto_row_0, ?upto_0; lia.
  - clear Hrun. intros i [[uA uAv] uRs] t' Hi (HlA & HlAv & HlRs & _ & HA & HAv & HRs) Hbody.
    unfold tentative in Hbody. simplify_option_eq. unpack. read_entries. simpl in *.
    split; [| split; [| split; [| split; [| split; [| split]]]]].
    + rewrite <- HlA. apply lengths_insert. assumption.
    + rewrite length_insert. exact HlAv.
    + rewrite length_insert. exact HlRs.
    + intros _. eexists. split; [reflexivity |].
      rewrite <- (lengths_length _ _ HlA). assumption.
    + intros q j. rewrite cell_insert by assumption. rewrite upto_row_S, HA.
      repeat case_decide; destruct_and?; simplify_eq; try lia;
        try (exfalso; naive_solver lia).
      rewrite HA. unfold upto_row, upto. repeat case_decide; lia.
    + intros j. rewrite entry_insert by assumption. rewrite upto_S, HAv.
      repeat case_decide; simplify_eq; try lia.
      rewrite HAv. unfold upto. case_decide; lia.
    + intros j. rewrite entry_insert by assumption. rewrite upto_S, HRs.
      repeat case_decide; simplify_eq; try lia.
      rewrite HRs. unfold upto. case_decide; lia.
Qed.

Lemma give_back_loop req avail res k avail' res' :
  for_loop k (give_back req) (avail, res) = Some (avail', res') →
  length avail' = length avail ∧
  length res' = length res ∧
  (∀ j, entry avail' j = (entry avail j + upto k req j)%Z) ∧
  (∀ j, entry res' j = (entry res j + upto k req j)%Z).
Proof.
  intros Hrun.
  apply (for_loop_inv (λ i t,
    length t.1 = length avail ∧
    length t.2 = length res ∧
    (∀ j, entry t.1 j = (entry avail j + upto i req j)%Z) ∧
    (∀ j, entry t.2 j = (entry res j + upto i req j)%Z))
    _ _ _ _ Hrun).
  - simpl. repeat split; try reflexivity; intros; rewrite upto_0; lia.
  - clear Hrun. intros i [uAv uRs] t' Hi (HlAv & HlRs & HAv & HRs) Hbody.
    unfold give_back in Hbody. simplify_option_eq. unpack. read_entries. simpl in *.
    repeat split.
    + rewrite length_insert. exact HlAv.
    + rewrite length_insert. exact HlRs.
    + intros j. rewrite entry_insert by assumption. rewrite upto_S, HAv.
      repeat case_decide; simplify_eq; try lia.
      rewrite HAv. unfold upto. case_decide; lia.
    + intros j. rewrite entry_insert by assumption. rewrite upto_S, HRs.
      repeat case_decide; simplify_eq; try lia.
      rewrite HRs. unfold upto. case_decide; lia.
Qed.

Lemma release_loop pid rel b k b' :
  for_loop k (release_cell pid rel) b = Some b' →
  length <$> allocation b' = length <$> allocation b ∧
  length (available b') = length (available b) ∧
  length (resources b') = length (resources b) ∧
  max b' = max b ∧
  completed b' = completed b ∧
  (0 < k → ∃ p, index pid = Some p ∧ p < length (allocation b)) ∧
  (∀ q j, cell (allocation b') q j =
     (cell (allocation b) q j - upto_row pid k rel q j)%Z) ∧
  (∀ j, entry (available b') j = (entry (available b) j + upto k rel j)%Z) ∧
  (∀ j, entry (resources b') j = (entry (resources b) j + upto k rel j)%Z).
Proof.
  intros Hrun.
  apply (for_loop_inv (λ i t,
    length <$> allocation t = length <$> allocation b ∧
    length (available t) = length (available b) ∧
    length (resources t) = length (resources b) ∧
    max t = max b ∧
    completed t = completed b ∧
    (0 < i → ∃ p, index pid = Some p ∧ p < length (allocation b)) ∧
    (∀ q j, cell (allocation t) q j =
       (cell (allocation b) q j - upto_row pid i rel q j)%Z) ∧
    (∀ j, entry (available t) j = (entry (available b) j + upto i rel j)%Z) ∧
    (∀ j, entry (resources t) j = (entry (resources b) j + upto i rel j)%Z))
    _ _ _ _ Hrun).
  - repeat split; try reflexivity; intros; rewrite ?upto_row_0, ?upto_0; lia.
  - clear Hrun. intros i u t' Hi (HlA & HlAv & HlRs & Hmax & Hc & _ & HA & HAv & HRs) Hbody.
    unfold release_cell in Hbody. simplify_option_eq. unpack. read_entries. simpl in *.
    split; [| split; [| split; [| split; [| split; [| split; [| split; [| split]]]]]]];
      try assumption.
    + rewrite <- HlA. apply lengths_insert. assumption.
    + rewrite length_insert. exact HlAv.
    + rewrite length_insert. exact HlRs.
    + intros _. eexists. split; [reflexivity |].
      rewrite <- (lengths_length _ _ HlA). assumption.
    + intros q j. rewrite cell_insert by assumption. rewrite upto_row_S, HA.
      repeat case_decide; destruct_and?; simplify_eq; try lia;
        try (exfalso; naive_solver lia).
      rewrite HA. unfold upto_row, upto. repeat case_decide; lia.
    + intros j. rewrite entry_insert by assumption. rewrite upto_S, HAv.
      repeat case_decide; simplify_eq; try lia.
      rewrite HAv. unfold upto. case_decide; lia.
    + intros j. rewrite entry_insert by assumption. rewrite upto_S, HRs.
      repeat case_decide; simplify_eq; try lia.
      rewrite HRs. unfold upto. case_decide; lia.
Qed.

Lemma construct_Some alloc mx avail tb :
  construct alloc mx avail = Some tb →
  allocation tb = alloc ∧ max tb = mx ∧ available tb = avail.
Proof.
  unfold construct. intros H. simplify_option_eq. auto.
Qed.

(** What a granted request went through. *)
Lemma requestResources_true pid req b b' :
  requestResources pid req b = Some (true, b') →
  ∃ p tAv tRs tb,
    index pid = Some p ∧ p < length (completed b) ∧
    exceeds b pid req 0 (length req) = Some false ∧
    for_loop (length req) (tentative pid req)
      (allocation b, available b, resources b) = Some (allocation b', tAv, tRs) ∧
    construct (allocation b') (max b) tAv = Some tb ∧
    isSafeState tb = Some true ∧
    for_loop (length req) (give_back req) (tAv, tRs) = Some (available b', resources b') ∧
    max b' = max b ∧
    completed b' = <[p:=true]> (completed b).
Proof.
  unfold requestResources. intros H.
  apply bind_Some_inv in H. destruct H as ([] & He & H); [congruence |].
  apply bind_Some_inv in H. destruct H as ([[tA tAv] tRs] & Ht & H).
  apply bind_Some_inv in H. destruct H as (tb & Hc & H).
  apply bind_Some_inv in H. destruct H as ([] & Hs & H); [| congruence].
  apply bind_Some_inv in H. destruct H as (p & Hp & H).
  apply bind_Some_inv in H. destruct H as (c' & Hv & H).
  apply bind_Some_inv in H. destruct H as ([av' rs'] & Hg & H).
  apply vset_Some in Hv. destruct Hv as [Hlt ->].
  inversion H; subst; simpl. exists p, tAv, tRs, tb. auto 10.
Qed.

(** * Sums of allocations *)

Lemma held_app b r l1 l2 : held b r (l1 ++ l2) = (held b r l1 + held b r l2)%Z.
Proof.
  unfold held. induction l1 as [|p l1 IH]; simpl; [reflexivity |].
  rewrite IH. lia.
Qed.

Lemma held_nonneg b r l : nonneg_allocation b → (0 ≤ held b r l)%Z.
Proof.
  intros Hnn. induction l as [|p l IH]; simpl; [lia |].
  specialize (Hnn p r). lia.
Qed.

Lemma held_Permutation b r l1 l2 : l1 ≡ₚ l2 → held b r l1 = held b r l2.
Proof.
  induction 1; simpl; try lia.
Qed.

Lemma held_submseteq b r l1 l2 :
  nonneg_allocation b → l1 ⊆+ l2 → (held b r l1 ≤ held b r l2)%Z.
Proof.
  intros Hnn Hsub. apply submseteq_Permutation in Hsub. destruct Hsub as [k Hk].
  rewrite (held_Permutation _ _ _ _ Hk), held_app.
  pose proof (held_nonneg b r k Hnn). lia.
Qed.

Lemma held_subset b r l1 l2 :
  nonneg_allocation b → NoDup l1 → (∀ p, p ∈ l1 → p ∈ l2) →
  (held b r l1 ≤ held b r l2)%Z.
Proof.
  intros Hnn Hnd Hin. apply held_submseteq; [exact Hnn |].
  apply NoDup_submseteq; assumption.
Qed.

Lemma held_cons b r p l :
  held b r (p :: l) = (cell (allocation b) p r + held b r l)%Z.
Proof. reflexivity. Qed.

(** The sum over a duplicate-free list when one process's cell moves by [x]. *)
Lemma held_shift b b' r l p x :
  NoDup l →
  (∀ q, cell (allocation b') q r =
     (cell (allocation b) q r + if decide (q = p) then x else 0)%Z) →
  held b' r l = (held b r l + if decide (p ∈ l) then x else 0)%Z.
Proof.
  intros Hnd Hcell. induction Hnd as [|q l Hq Hnd IH].
  - destruct (decide (p ∈ [])) as [Hin|_]; [inversion Hin | unfold held; simpl; lia].
  - rewrite !held_cons, IH, Hcell.
    destruct (decide (q = p)) as [->|Hne].
    + rewrite (decide_False (P := p ∈ l)) by exact Hq.
      rewrite (decide_True (P := p ∈ p :: l)) by apply list_elem_of_here. lia.
    + destruct (decide (p ∈ l)) as [Hin|Hin].
      * rewrite (decide_True (P := p ∈ q :: l)) by (apply list_elem_of_further; exact Hin). lia.
      * rewrite (decide_False (P := p ∈ q :: l)); [lia |].
        intros Hc. apply elem_of_cons in Hc. destruct Hc; [congruence | tauto].
Qed.

Lemma held_same b b' r l :
  (∀ q, cell (allocation b') q r = cell (allocation b) q r) →
  held b' r l = held b r l.
Proof.
  intros Hcell. induction l as [|q l IH]; simpl; [reflexivity |].
  rewrite IH, Hcell. reflexivity.
Qed.

(** * The pieces of [isSafeState] on a rectangular state *)

Lemma table_lookup (M : list (list Z)) m p :
  Forall (λ row, length row = m) M → p < length M →
  ∃ row, M !! p = Some row ∧ length row = m.
Proof.
  intros Hall Hp. destruct (lookup_lt_is_Some_2 M p Hp) as [row Hrow].
  exists row. split; [exact Hrow |].
  rewrite Forall_lookup in Hall. exact (Hall p row Hrow).
Qed.

Lemma numResources_row0 b row0 :
  allocation b !! 0 = Some row0 → numResources b = length row0.
Proof. unfold numResources. intros ->. reflexivity. Qed.

Lemma rectangular_row0 b :
  rectangular b → ∃ row0, allocation b !! 0 = Some row0 ∧ length row0 = numResources b.
Proof.
  intros (Hn & Hrows & _). apply table_lookup; assumption.
Qed.

Lemma allocation_lookup b p r :
  rectangular b → p < numProcesses b → r < numResources b →
  ∃ row, allocation b !! p = Some row ∧ row !! r = Some (cell (allocation b) p r).
Proof.
  intros (_ & Hrows & _) Hp Hr.
  destruct (table_lookup _ _ p Hrows Hp) as (row & Hrow & Hlen).
  exists row. split; [exact Hrow |].
  rewrite (cell_row _ _ _ _ Hrow). apply lookup_entry. lia.
Qed.

Lemma max_lookup b p r :
  rectangular b → p < numProcesses b → r < numResources b →
  ∃ row, max b !! p = Some row ∧ row !! r = Some (cell (max b) p r).
Proof.
  intros (_ & _ & Hlen & Hrows & _) Hp Hr.
  destruct (table_lookup _ _ p Hrows) as (row & Hrow & Hl); [lia |].
  exists row. split; [exact Hrow |].
  rewrite (cell_row _ _ _ _ Hrow). apply lookup_entry. lia.
Qed.

(** The need table is filled completely, with [Need]. *)
Lemma need_matrix_spec b :
  rectangular b → representable b →
  ∃ need,
    need_matrix b (numProcesses b) (numResources b) = Some need ∧
    length need = numProcesses b ∧
    Forall (λ row, length row = numResources b) need ∧
    ∀ p r, p < numProcesses b → r < numResources b → cell need p r = Need b p r.
Proof.
  intros Hrect [Hneed _].
  set (n := numProcesses b). set (m := numResources b).
  pose (shape := λ need : list (list Z),
          length need = n ∧ Forall (λ row, length row = m) need).
  destruct (for_loop_total
    (λ i need, shape need ∧ ∀ p r, p < i → r < m → cell need p r = Need b p r)
    n (λ i need, for_loop m (need_cell b i) need)
    (replicate n (replicate m 0%Z))) as (need & Hrun & [Hshape Hcells] ).
  - split; [| intros; lia]. split; [apply length_replicate |].
    apply Forall_replicate. apply length_replicate.
  - intros i need0 Hi [Hshape0 Hdone].
    destruct (for_loop_total
      (λ j need, shape need ∧
         (∀ p r, p < i → r < m → cell need p r = Need b p r) ∧
         (∀ r, r < j → cell need i r = Need b i r))
      m (need_cell b i) need0) as (need1 & Hrun1 & Hshape1 & Hdone1 & Hrow1).
    + split; [exact Hshape0 |]. split; [exact Hdone | intros; lia].
    + intros j need1 Hj ([Hlen1 Hrows1] & Hdone1 & Hrow1).
      destruct (max_lookup b i j Hrect Hi Hj) as (mrow & Hmrow & Hm).
      destruct (allocation_lookup b i j Hrect Hi Hj) as (arow & Harow & Ha).
      destruct (table_lookup _ _ i Hrows1) as (nrow & Hnrow & Hnl); [lia |].
      specialize (Hneed i j Hi Hj). unfold Need in Hneed.
      exists (<[i := <[j := Need b i j]> nrow]> need1). split.
      * unfold need_cell. rewrite Hmrow. simpl. rewrite Hm. simpl.
        rewrite Harow. simpl. rewrite Ha. simpl.
        unfold int_sub, checked, int_fits.
        rewrite (proj2 (Z.leb_le _ _)) by lia.
        rewrite (proj2 (Z.leb_le _ _)) by lia. simpl.
        rewrite Hnrow. simpl. rewrite vset_lt by lia. simpl.
        rewrite vset_lt by lia. reflexivity.
      * split; [split |]; [| | split].
        -- rewrite length_insert. exact Hlen1.
        -- apply Forall_insert; [exact Hrows1 |]. rewrite length_insert. exact Hnl.
        -- intros p r Hp Hr. rewrite cell_insert; [| exact Hnrow | lia].
           rewrite decide_False by lia. apply Hdone1; assumption.
        -- intros r Hr. rewrite cell_insert; [| exact Hnrow | lia].
           destruct (decide (r = j)) as [->|Hne].
           ++ rewrite decide_True by auto. reflexivity.
           ++ rewrite decide_False by tauto. apply Hrow1. lia.
    + exists need1. split; [exact Hrun1 |]. split; [exact Hshape1 |].
      intros p r Hp Hr. destruct (decide (p = i)) as [->|Hne].
      * apply Hrow1. exact Hr.
      * apply Hdone1; [lia | exact Hr].
  - exists need. destruct Hshape as [Hl Hr]. auto.
Qed.

(** The comparison loop decides [executable]. *)
Lemma can_execute_spec need_i w j cnt :
  j + cnt ≤ length need_i → j + cnt ≤ length w →
  ∃ c, can_execute need_i w j cnt = Some c ∧
       (c = true ↔ ∀ r, j ≤ r < j + cnt → (entry need_i r ≤ entry w r)%Z).
Proof.
  revert j. induction cnt as [|cnt IH]; intros j Hn Hw; simpl.
  - exists true. split; [reflexivity |]. split; [intros _ r Hr; lia | reflexivity].
  - rewrite (lookup_entry need_i j) by lia. simpl.
    rewrite (lookup_entry w j) by lia. simpl.
    destruct (Z.gtb_spec (entry need_i j) (entry w j)) as [Hgt|Hle].
    + exists false. split; [reflexivity |]. split; [discriminate |].
      intros Hall. specialize (Hall j). lia.
    + destruct (IH (S j)) as (c & Hc & Hiff); [lia | lia |].
      exists c. split; [exact Hc |]. rewrite Hiff. split.
      * intros Hall r Hr. destruct (decide (r = j)) as [->|Hne]; [exact Hle |].
        apply Hall. lia.
      * intros Hall r Hr. apply Hall. lia.
Qed.

(** [work += allocation[i]], column by column. *)
Lemma work_loop b i w :
  rectangular b → i < numProcesses b → length w = numResources b →
  (∀ r, r < numResources b →
     (INT_MIN ≤ entry w r + cell (allocation b) i r ≤ INT_MAX)%Z) →
  ∃ w', for_loop (numResources b) (work_cell b i) w = Some w' ∧
        length w' = numResources b ∧
        ∀ r, r < numResources b → entry w' r = (entry w r + cell (allocation b) i r)%Z.
Proof.
  intros Hrect Hi Hlen Hfits.
  destruct (for_loop_total
    (λ j w', length w' = numResources b ∧
       ∀ r, entry w' r =
         if decide (r < j) then (entry w r + cell (allocation b) i r)%Z else entry w r)
    (numResources b) (work_cell b i) w) as (w' & Hrun & Hl & Hw').
  - split; [exact Hlen |]. intros r. rewrite decide_False by lia. reflexivity.
  - intros j u Hj [Hlu Hu].
    destruct (allocation_lookup b i j Hrect Hi Hj) as (row & Hrow & Ha).
    specialize (Hfits j Hj).
    exists (<[j := (entry w j + cell (allocation b) i j)%Z]> u). split.
    + unfold work_cell. rewrite (lookup_entry u j) by lia. simpl.
      rewrite Hrow. simpl. rewrite Ha. simpl.
      rewrite Hu, decide_False by lia.
      unfold int_add, checked, int_fits.
      rewrite (proj2 (Z.leb_le _ _)) by lia.
      rewrite (proj2 (Z.leb_le _ _)) by lia. simpl.
      apply vset_lt. lia.
    + split; [rewrite length_insert; exact Hlu |].
      intros r. rewrite entry_insert by lia. rewrite Hu.
      repeat case_decide; subst; try reflexivity; lia.
  - exists w'. split; [exact Hrun |]. split; [exact Hl |].
    intros r Hr. rewrite Hw', decide_True by exact Hr. reflexivity.
Qed.

(** * The scan of [isSafeState] *)

Section Scan.

Variable b : Banker.
Variable need : list (list Z).

Hypothesis Hwf : well_formed b.
Hypothesis Hneed_length : length need = numProcesses b.
Hypothesis Hneed_rows : Forall (λ row, length row = numResources b) need.
Hypothesis Hneed_cells :
  ∀ p r, p < numProcesses b → r < numResources b → cell need p r = Need b p r.

Lemma marked_lt st (order : list nat) p :
  length (safe st) = numProcesses b →
  (∀ q, q ∈ order ↔ safe st !! q = Some true) →
  p ∈ order → p < numProcesses b.
Proof.
  intros Hlen Hmarks Hp. apply Hmarks in Hp.
  apply lookup_lt_Some in Hp. lia.
Qed.

(** One process examined: either nothing changes, or it is marked and its
    allocation joins the work vector. *)
Lemma scan_body_spec i st :
  scan_invariant b st → i < numProcesses b →
  ∃ st', scan_body b need (numResources b) i st = Some st' ∧
    scan_invariant b st' ∧
    ((st' = st ∧ (safe st !! i = Some true ∨ ¬ executable b i (work st))) ∨
     (finished st' = false ∧ count st' = S (count st) ∧
      safe st !! i = Some false ∧ safe st' = <[i:=true]> (safe st))).
Proof.
  intros Hinv Hi. pose proof Hinv as (Hls & Hlw & order & Hnd & Hmarks & Hcount & Hwork & Hvalid).
  destruct Hwf as (Hrect & Hnn & Hneed & Havail & _).
  unfold scan_body.
  destruct (lookup_lt_is_Some_2 (safe st) i) as [s Hs]; [lia |].
  rewrite Hs. simpl. destruct s.
  { exists st. split; [reflexivity |]. split; [exact Hinv |]. left. auto. }
  destruct (table_lookup _ _ i Hneed_rows) as (nrow & Hnrow & Hnl); [lia |].
  rewrite Hnrow. simpl.
  destruct (can_execute_spec nrow (work st) 0 (numResources b)) as (c & Hc & Hiff);
    [lia | lia |].
  rewrite Hc. simpl.
  assert (c = true ↔ executable b i (work st)) as Hexec.
  { rewrite Hiff. unfold executable. split; intros H r Hr.
    - rewrite <- Hneed_cells by assumption. rewrite (cell_row _ _ _ _ Hnrow).
      apply H. lia.
    - rewrite <- (cell_row _ _ _ _ Hnrow), Hneed_cells by lia. apply H. lia. }
  destruct c.
  2:{ exists st. split; [reflexivity |]. split; [exact Hinv |]. left.
      split; [reflexivity |]. right. intros H. apply Hexec in H. discriminate. }
  assert (executable b i (work st)) as Hex by (apply Hexec; reflexivity).
  assert (i ∉ order) as Hfresh.
  { intros Hin. apply Hmarks in Hin. congruence. }
  assert (NoDup (order ++ [i])) as Hnd'.
  { apply NoDup_app. split; [exact Hnd |]. split; [| apply NoDup_singleton].
    intros x Hx Hxi. apply list_elem_of_singleton in Hxi. subst. tauto. }
  assert (∀ r, held b r (order ++ [i]) = (held b r order + cell (allocation b) i r)%Z) as Hheld.
  { intros r. rewrite held_app. unfold held at 2. simpl. lia. }
  rewrite vset_lt by lia. simpl.
  destruct (work_loop b i (work st) Hrect Hi Hlw) as (w' & Hw' & Hlw' & Hentries).
  { intros r Hr. rewrite Hwork by exact Hr.
    destruct (Havail r Hr) as [Hlo Hhi]. unfold total in Hhi.
    pose proof (held_nonneg b r order Hnn).
    pose proof (Hnn i r).
    assert (held b r (order ++ [i]) ≤ held b r (seq 0 (numProcesses b)))%Z as Hle.
    { apply held_subset; [exact Hnn | exact Hnd' |].
      intros p Hp. apply elem_of_seq. apply elem_of_app in Hp.
      destruct Hp as [Hp|Hp].
      - pose proof (marked_lt st order p Hls Hmarks Hp). lia.
      - apply list_elem_of_singleton in Hp. subst. lia. }
    rewrite Hheld in Hle. lia. }
  rewrite Hw'. simpl. eexists. split; [reflexivity |]. split.
  - split; [simpl; rewrite length_insert; exact Hls |].
    split; [exact Hlw' |]. exists (order ++ [i]). simpl.
    split; [exact Hnd' |]. split; [| split; [| split]].
    + intros p. rewrite elem_of_app, list_elem_of_singleton, Hmarks.
      destruct (decide (p = i)) as [->|Hne].
      * rewrite list_lookup_insert_eq by lia. tauto.
      * rewrite list_lookup_insert_ne by congruence. tauto.
    + rewrite length_app. simpl. lia.
    + intros r Hr. rewrite Hentries, Hwork, Hheld by exact Hr. lia.
    + intros k p Hk r Hr. unfold work_before.
      destruct (decide (k < length order)) as [Hlt|Hge].
      * rewrite lookup_app_l in Hk by exact Hlt.
        rewrite take_app_le by lia. apply (Hvalid k p Hk r Hr).
      * pose proof (lookup_lt_Some _ _ _ Hk) as Hklen.
        rewrite length_app in Hklen. simpl in Hklen.
        assert (k = length order) as -> by lia.
        rewrite lookup_app_r in Hk by lia.
        rewrite Nat.sub_diag in Hk. simpl in Hk. inversion Hk. subst p.
        rewrite take_app_length. rewrite <- Hwork by exact Hr. apply Hex. exact Hr.
  - right. simpl. auto.
Qed.

(** One pass: if it ends with [finished] still set, nothing was marked and
    no unmarked process is executable; otherwise [count] has grown. *)
Lemma scan_pass_spec st :
  scan_invariant b st →
  ∃ st', scan_pass b need (numProcesses b) (numResources b) st = Some st' ∧
    scan_invariant b st' ∧
    (finished st' = true →
       safe st' = safe st ∧ work st' = work st ∧ count st' = count st ∧
       ∀ p, p < numProcesses b → safe st !! p = Some false →
            ¬ executable b p (work st)) ∧
    (finished st' = false → count st < count st').
Proof.
  intros Hinv. unfold scan_pass.
  destruct (for_loop_total
    (λ i t, scan_invariant b t ∧
       (finished t = true →
          safe t = safe st ∧ work t = work st ∧ count t = count st ∧
          ∀ p, p < i → safe st !! p = Some false → ¬ executable b p (work st)) ∧
       (finished t = false → count st < count t))
    (numProcesses b) (scan_body b need (numResources b))
    (mkScan (safe st) (work st) true (count st))) as (st' & Hrun & Hinv' & Hfin & Hprog).
  - split; [exact Hinv |]. simpl. split; [| discriminate].
    intros _. repeat split. intros p Hp. lia.
  - intros i t Hi (Hinvt & Hfin & Hprog).
    destruct (scan_body_spec i t Hinvt Hi) as (t' & Hbody & Hinvt' & Hcase).
    exists t'. split; [exact Hbody |]. split; [exact Hinvt' |].
    destruct Hcase as [[-> Hstay] | (Hf & Hc & Hsi & Hsafe)].
    + split; [| exact Hprog].
      intros Hft. destruct (Hfin Hft) as (Hs & Hw & Hc & Hstuck).
      repeat split; try assumption.
      intros p Hp Hsp. destruct (decide (p = i)) as [->|Hne]; [| apply Hstuck; [lia | exact Hsp]].
      rewrite Hs, Hw in Hstay. destruct Hstay as [Hm|Hne]; [congruence | exact Hne].
    + split; [intros Hft; congruence |].
      intros _. rewrite Hc. destruct (finished t) eqn:Hft.
      * destruct (Hfin eq_refl) as (_ & _ & -> & _). lia.
      * specialize (Hprog eq_refl). lia.
  - exists st'. split; [exact Hrun |]. split; [exact Hinv' |]. split; [| exact Hprog].
    intros Hft. destruct (Hfin Hft) as (Hs & Hw & Hc & Hstuck).
    repeat split; try assumption.
Qed.

Lemma scan_init_invariant : scan_invariant b (scan_init b (numProcesses b)).
Proof.
  destruct Hwf as ((_ & _ & _ & _ & Hla) & _).
  split; [apply length_replicate |]. split; [exact Hla |].
  exists []. simpl. split; [apply NoDup_nil_2 |]. split; [| split; [| split]].
  - intros p. rewrite elem_of_nil, lookup_replicate. split; [tauto |].
    intros [Hc _]. discriminate.
  - reflexivity.
  - intros r _. unfold held. simpl. lia.
  - intros k p Hk. rewrite lookup_nil in Hk. discriminate.
Qed.

Lemma passes_invariant k st :
  passes b need k = Some st → scan_invariant b st.
Proof.
  revert st. induction k as [|k IH]; intros st Hk; simpl in Hk.
  - inversion Hk. apply scan_init_invariant.
  - apply bind_Some_inv in Hk. destruct Hk as (st0 & Hst0 & Hpass).
    destruct (scan_pass_spec st0 (IH _ Hst0)) as (st' & Hrun & Hinv & _).
    congruence.
Qed.

(** The [do ... while] loop exits, on the result of some pass, with
    [finished] set or every process counted. *)
Lemma do_while_spec fuel k st :
  passes b need k = Some st →
  numProcesses b - count st < fuel →
  ∃ k' st0 st',
    passes b need k' = Some st0 ∧
    scan_pass b need (numProcesses b) (numResources b) st0 = Some st' ∧
    do_while fuel b need (numProcesses b) (numResources b) st = Exited st' ∧
    (finished st' = true ∨ numProcesses b ≤ count st').
Proof.
  revert k st. induction fuel as [|fuel IH]; intros k st Hk Hfuel; [lia |].
  destruct (scan_pass_spec st (passes_invariant k st Hk)) as (st' & Hrun & Hinv & Hfin & Hprog).
  simpl. rewrite Hrun.
  destruct (finished st') eqn:Hf; simpl.
  { exists k, st, st'. rewrite Hf. auto. }
  destruct (Nat.ltb_spec (count st') (numProcesses b)) as [Hlt|Hge].
  - specialize (Hprog eq_refl).
    apply (IH (S k) st'); [| lia].
    simpl. rewrite Hk. simpl. exact Hrun.
  - exists k, st, st'. rewrite Hf. auto.
Qed.

End Scan.

(** * Safe orderings and the result of the scan *)

(** The first process of a list that is outside a given set. *)
Lemma first_outside (marked l : list nat) :
  (∃ p, p ∈ l ∧ (p ∉ marked)) →
  ∃ k p, l !! k = Some p ∧ (p ∉ marked) ∧ ∀ q, q ∈ take k l → q ∈ marked.
Proof.
  induction l as [|x l IH]; intros (p & Hp & Hout).
  - inversion Hp.
  - destruct (decide (x ∈ marked)) as [Hx|Hx].
    + destruct IH as (k & q & Hk & Hq & Hpre).
      { exists p. split; [| exact Hout].
        apply elem_of_cons in Hp. destruct Hp as [->|Hp]; [tauto | exact Hp]. }
      exists (S k), q. split; [exact Hk |]. split; [exact Hq |].
      intros y Hy. simpl in Hy. apply elem_of_cons in Hy.
      destruct Hy as [->|Hy]; [exact Hx | apply Hpre; exact Hy].
    + exists 0, x. split; [reflexivity |]. split; [exact Hx |].
      intros y Hy. simpl in Hy. inversion Hy.
Qed.

(** Counting the marks. *)
Lemma count_le b st : scan_invariant b st → count st ≤ numProcesses b.
Proof.
  intros (Hls & _ & order & Hnd & Hmarks & Hcount & _).
  assert (order ⊆+ seq 0 (numProcesses b)) as Hsub.
  { apply NoDup_submseteq; [exact Hnd |].
    intros p Hp. apply elem_of_seq. apply Hmarks, lookup_lt_Some in Hp. lia. }
  apply submseteq_length in Hsub. rewrite length_seq in Hsub. lia.
Qed.

Lemma unmarked_exists b st :
  scan_invariant b st → count st < numProcesses b →
  ∃ p, p < numProcesses b ∧ safe st !! p = Some false.
Proof.
  intros (Hls & _ & order & Hnd & Hmarks & Hcount & _) Hlt.
  destruct (decide (Exists (λ p, p ∉ order) (seq 0 (numProcesses b)))) as [Hex|Hall].
  - apply Exists_exists in Hex. destruct Hex as (p & Hp & Hout).
    apply elem_of_seq in Hp. exists p. split; [lia |].
    destruct (lookup_lt_is_Some_2 (safe st) p) as [[] Hs]; [lia | | exact Hs].
    apply Hmarks in Hs. tauto.
  - exfalso.
    assert (seq 0 (numProcesses b) ⊆+ order) as Hsub.
    { apply NoDup_submseteq; [apply NoDup_seq |].
      intros p Hp. destruct (decide (p ∈ order)) as [Hin|Hout]; [exact Hin |].
      exfalso. apply Hall. apply Exists_exists. eauto. }
    apply submseteq_length in Hsub. rewrite length_seq in Hsub. lia.
Qed.

(** Every process marked: the marking order is a safe ordering. *)
Lemma all_marked_safe b st :
  scan_invariant b st → numProcesses b ≤ count st →
  (∃ order, safe_ordering b order) ∧ forallb id (safe st) = true.
Proof.
  intros (Hls & _ & order & Hnd & Hmarks & Hcount & _ & Hvalid) Hge.
  assert (order ⊆+ seq 0 (numProcesses b)) as Hsub.
  { apply NoDup_submseteq; [exact Hnd |].
    intros p Hp. apply elem_of_seq. apply Hmarks, lookup_lt_Some in Hp. lia. }
  assert (order ≡ₚ seq 0 (numProcesses b)) as Hperm.
  { apply submseteq_length_Permutation; [exact Hsub |]. rewrite length_seq. lia. }
  split.
  - exists order. split; [exact Hperm | exact Hvalid].
  - apply Is_true_true, forallb_True, Forall_lookup. intros p s Hs.
    assert (p ∈ order) as Hp.
    { rewrite Hperm. apply elem_of_seq. apply lookup_lt_Some in Hs. lia. }
    apply Hmarks in Hp. rewrite Hp in Hs. inversion Hs. exact I.
Qed.

(** No unmarked process executable: no safe ordering exists. *)
Lemma stuck_unsafe b st :
  nonneg_allocation b → scan_invariant b st →
  (∀ p, p < numProcesses b → safe st !! p = Some false →
        ¬ executable b p (work st)) →
  (∃ p, p < numProcesses b ∧ safe st !! p = Some false) →
  ¬ ∃ order, safe_ordering b order.
Proof.
  intros Hnn (Hls & _ & marked & Hnd & Hmarks & _ & Hwork & _) Hstuck
    (p0 & Hp0 & Hs0) (order & Hperm & Hvalid).
  destruct (first_outside marked order) as (k & p & Hk & Hout & Hpre).
  { exists p0. split.
    - rewrite Hperm. apply elem_of_seq. lia.
    - intros Hin. apply Hmarks in Hin. congruence. }
  assert (p < numProcesses b) as Hp.
  { assert (p ∈ order) as Hin by (apply list_elem_of_lookup; eauto).
    rewrite Hperm in Hin. apply elem_of_seq in Hin. lia. }
  apply (Hstuck p Hp).
  - destruct (lookup_lt_is_Some_2 (safe st) p) as [[] Hs]; [lia | | exact Hs].
    apply Hmarks in Hs. tauto.
  - intros r Hr. rewrite Hwork by exact Hr.
    specialize (Hvalid k p Hk r Hr). unfold work_before in Hvalid.
    assert (held b r (take k order) ≤ held b r marked)%Z as Hle.
    { apply held_subset; [exact Hnn | | exact Hpre].
      apply (sublist_NoDup _ order); [| apply sublist_take].
      rewrite Hperm. apply NoDup_seq. }
    lia.
Qed.

(** On a well-formed state [isSafeState] returns, and its answer is read
    off the last pass of the scan. *)
Lemma isSafeState_result b :
  well_formed b →
  ∃ need k st st',
    need_matrix b (numProcesses b) (numResources b) = Some need ∧
    passes b need k = Some st ∧
    scan_pass b need (numProcesses b) (numResources b) st = Some st' ∧
    scan_invariant b st ∧ scan_invariant b st' ∧
    ((numProcesses b ≤ count st' ∧ isSafeState b = Some true) ∨
     (count st' < numProcesses b ∧ safe st' = safe st ∧
      (∀ p, p < numProcesses b → safe st' !! p = Some false →
            ¬ executable b p (work st')) ∧
      isSafeState b = Some false)).
Proof.
  intros Hwf. pose proof Hwf as (Hrect & Hnn & Hrep).
  destruct (rectangular_row0 b Hrect) as (row0 & Hrow0 & Hlen0).
  destruct (need_matrix_spec b Hrect Hrep) as (need & Hneed & Hnl & Hnrows & Hncells).
  destruct (do_while_spec b need Hwf Hnl Hnrows Hncells (S (numProcesses b)) 0
              (scan_init b (numProcesses b)) eq_refl) as (k & st & st' & Hk & Hpass & Hloop & Hexit).
  { simpl. lia. }
  pose proof (passes_invariant b need Hwf Hnl Hnrows Hncells k st Hk) as Hinv.
  destruct (scan_pass_spec b need Hwf Hnl Hnrows Hncells st Hinv) as (st2 & Hpass2 & Hinv' & Hfin & _).
  rewrite Hpass in Hpass2. inversion Hpass2. subst st2.
  exists need, k, st, st'. repeat (split; [assumption |]).
  unfold isSafeState. rewrite Hrow0. cbn [mbind option_bind]. rewrite Hlen0.
  fold (numProcesses b). rewrite Hneed. cbn [mbind option_bind]. rewrite Hloop.
  destruct (Nat.ltb_spec (count st') (numProcesses b)) as [Hlt|Hge].
  - right. destruct Hexit as [Hf|Hc]; [| lia].
    destruct (Hfin Hf) as (Hs & Hw & _ & Hstuck).
    rewrite Hs, Hw. auto.
  - left. split; [exact Hge |].
    destruct (all_marked_safe b st' Hinv' Hge) as [_ ->]. reflexivity.
Qed.

Lemma isSafeState_true_iff b :
  well_formed b →
  (isSafeState b = Some true ↔ ∃ order, safe_ordering b order).
Proof.
  intros Hwf.
  destruct (isSafeState_result b Hwf)
    as (need & k & st & st' & _ & _ & _ & _ & Hinv' & [[Hge Hres]|(Hlt & _ & Hstuck & Hres)]).
  - split; [| intros _; exact Hres].
    intros _. apply (all_marked_safe b st' Hinv' Hge).
  - split; [rewrite Hres; discriminate |].
    intros Hsafe. exfalso. revert Hsafe.
    destruct Hwf as (_ & Hnn & _).
    apply (stuck_unsafe b st' Hnn Hinv' Hstuck).
    apply unmarked_exists; assumption.
Qed.

(** The same marks are counted the same. *)
Lemma same_marks_same_count b st st' :
  scan_invariant b st → scan_invariant b st' → safe st' = safe st → count st' = count st.
Proof.
  intros (_ & _ & o1 & Hnd1 & Hm1 & Hc1 & _) (_ & _ & o2 & Hnd2 & Hm2 & Hc2 & _) Hsafe.
  rewrite <- Hc1, <- Hc2. apply Permutation_length, NoDup_Permutation; try assumption.
  intros p. rewrite Hm1, Hm2, Hsafe. reflexivity.
Qed.

(** * The fuel of [do_while] is never the limit *)

Lemma scan_body_count b need m i t t' :
  scan_body b need m i t = Some t' →
  t' = t ∨ (finished t' = false ∧ count t' = S (count t)).
Proof.
  unfold scan_body. intros H.
  apply bind_Some_inv in H. destruct H as ([] & _ & H); [left; congruence |].
  apply bind_Some_inv in H. destruct H as (nrow & _ & H).
  apply bind_Some_inv in H. destruct H as ([] & _ & H); [| left; congruence].
  apply bind_Some_inv in H. destruct H as (s' & _ & H).
  apply bind_Some_inv in H. destruct H as (w' & _ & H).
  inversion H. right. auto.
Qed.

Lemma scan_pass_count b need n m st st' :
  scan_pass b need n m st = Some st' →
  finished st' = false → count st < count st'.
Proof.
  unfold scan_pass. intros Hrun.
  apply (for_loop_inv (λ (_ : nat) t,
    count st ≤ count t ∧ (finished t = false → count st < count t)) _ _ _ _ Hrun).
  - simpl. split; [lia | discriminate].
  - intros i t t' _ [Hle Hlt] Hbody.
    destruct (scan_body_count _ _ _ _ _ _ Hbody) as [->|[Hf Hc]]; [auto |].
    rewrite Hc. split; [lia | intros _; lia].
Qed.

Lemma do_while_fuel fuel b need n m st :
  n - count st < fuel → do_while fuel b need n m st ≠ OutOfFuel.
Proof.
  revert st. induction fuel as [|fuel IH]; intros st Hfuel; [lia |].
  simpl. destruct (scan_pass b need n m st) as [st'|] eqn:Hpass; [| discriminate].
  destruct (finished st') eqn:Hf; simpl; [discriminate |].
  destruct (Nat.ltb_spec (count st') n) as [Hlt|Hge]; [| discriminate].
  apply IH. pose proof (scan_pass_count _ _ _ _ _ _ Hpass Hf). lia.
Qed.

(** In particular the loop of [isSafeState], started with one unit of fuel
    more than there are processes, never stops for lack of fuel: [None]
    is only ever an out-of-range subscript or an overflow. *)
Lemma isSafeState_fuel b need m :
  do_while (S (length (allocation b))) b need (length (allocation b)) m
    (scan_init b (length (allocation b))) ≠ OutOfFuel.
Proof. apply do_while_fuel. simpl. lia. Qed.

(** * The admission loop *)

Lemma exceeds_false b pid req i cnt :
  exceeds b pid req i cnt = Some false →
  ∀ j, i ≤ j < i + cnt →
    ∃ p, index pid = Some p ∧
      (entry req j ≤ Need b p j)%Z ∧ (entry req j ≤ entry (available b) j)%Z.
Proof.
  revert i. induction cnt as [|cnt IH]; intros i H j Hj; [lia |].
  simpl in H.
  apply bind_Some_inv in H. destruct H as (r & Hr & H).
  apply bind_Some_inv in H. destruct H as (p & Hp & H).
  apply bind_Some_inv in H. destruct H as (mrow & Hmrow & H).
  apply bind_Some_inv in H. destruct H as (mx & Hmx & H).
  apply bind_Some_inv in H. destruct H as (arow & Harow & H).
  apply bind_Some_inv in H. destruct H as (a & Ha & H).
  apply bind_Some_inv in H. destruct H as (d & Hd & H).
  apply int_sub_Some in Hd. destruct Hd as [-> Hfits].
  destruct (Z.gtb_spec r (mx - a)) as [Hgt|Hle]; [discriminate |].
  apply bind_Some_inv in H. destruct H as (av & Hav & H).
  destruct (Z.gtb_spec r av) as [Hgt|Hle2]; [discriminate |].
  destruct (decide (j = i)) as [->|Hne]; [| apply (IH (S i) H); lia].
  exists p. split; [exact Hp |]. unfold Need.
  rewrite (cell_lookup _ _ _ _ _ Hmrow Hmx), (cell_lookup _ _ _ _ _ Harow Ha).
  rewrite (entry_lookup _ _ _ Hr), (entry_lookup _ _ _ Hav). lia.
Qed.

(** * The sum [total] across a call *)

Lemma upto_row_Some pid k v p q j :
  index pid = Some p →
  upto_row pid k v q j = if decide (q = p) then upto k v j else 0%Z.
Proof.
  intros Hp. unfold upto_row. rewrite Hp.
  destruct (decide (Some p = Some q)) as [Heq|Hne], (decide (q = p)) as [Hq|Hq];
    try reflexivity; exfalso; [inversion Heq; congruence | subst; congruence].
Qed.

Lemma upto_pos k v j : upto k v j ≠ 0%Z → 0 < k.
Proof. unfold upto. case_decide; [lia | congruence]. Qed.

(** The column sum over all processes when the row of [pid] moves by
    [sign * upto k v]. *)
Lemma held_all_moved b b' pid k v r (sign : Z) :
  numProcesses b' = numProcesses b →
  (0 < k → ∃ p, index pid = Some p ∧ p < numProcesses b) →
  (∀ q j, cell (allocation b') q j =
     (cell (allocation b) q j + sign * upto_row pid k v q j)%Z) →
  held b' r (seq 0 (numProcesses b')) =
    (held b r (seq 0 (numProcesses b)) + sign * upto k v r)%Z.
Proof.
  intros Hn Hidx Hcell. rewrite Hn.
  destruct (decide (upto k v r = 0%Z)) as [Hz|Hnz].
  - rewrite Hz. rewrite (held_same b b'); [lia |].
    intros q. rewrite Hcell. unfold upto_row. case_decide; lia.
  - destruct (Hidx (upto_pos _ _ _ Hnz)) as (p & Hp & Hlt).
    rewrite (held_shift b b' r _ p (sign * upto k v r)%Z); [| apply NoDup_seq |].
    + rewrite decide_True; [lia |]. apply elem_of_seq. lia.
    + intros q. rewrite Hcell, (upto_row_Some _ _ _ _ _ _ Hp). case_decide; lia.
Qed.

Lemma releaseResources_Some pid rel b b' :
  releaseResources pid rel b = Some (tt, b') →
  ∃ p, index pid = Some p ∧ p < length (completed b) ∧
    length <$> allocation b' = length <$> allocation b ∧
    length (available b') = length (available b) ∧
    length (resources b') = length (resources b) ∧
    max b' = max b ∧
    completed b' = <[p:=false]> (completed b) ∧
    (0 < length rel → p < length (allocation b)) ∧
    (∀ q j, cell (allocation b') q j =
       (cell (allocation b) q j - upto_row pid (length rel) rel q j)%Z) ∧
    (∀ j, entry (available b') j = (entry (available b) j + entry rel j)%Z) ∧
    (∀ j, entry (resources b') j = (entry (resources b) j + entry rel j)%Z).
Proof.
  unfold releaseResources. intros H.
  apply bind_Some_inv in H. destruct H as (b1 & Hloop & H).
  apply bind_Some_inv in H. destruct H as (p & Hp & H).
  apply bind_Some_inv in H. destruct H as (c' & Hc & H).
  apply vset_Some in Hc. destruct Hc as [Hlt ->].
  inversion H. subst b'. simpl.
  destruct (release_loop _ _ _ _ _ Hloop)
    as (HlA & HlAv & HlRs & Hmax & Hcomp & Hidx & HA & HAv & HRs).
  exists p. rewrite Hcomp in *.
  assert (0 < length rel → p < length (allocation b)) as Hidx'.
  { intros Hk. destruct (Hidx Hk) as (p' & Hp' & Hlt'). congruence. }
  assert (∀ j, entry (available b1) j = (entry (available b) j + entry rel j)%Z) as HAv'.
  { intros j. rewrite HAv, upto_length. reflexivity. }
  assert (∀ j, entry (resources b1) j = (entry (resources b) j + entry rel j)%Z) as HRs'.
  { intros j. rewrite HRs, upto_length. reflexivity. }
  auto 12.
Qed.

Lemma total_release pid rel b b' r :
  releaseResources pid rel b = Some (tt, b') → total b' r = total b r.
Proof.
  intros H. destruct (releaseResources_Some _ _ _ _ H)
    as (p & Hp & _ & HlA & _ & _ & _ & _ & Hidx & HA & HAv & _).
  unfold total.
  rewrite (held_all_moved b b' pid (length rel) rel r (-1)).
  - rewrite HAv, upto_length. lia.
  - unfold numProcesses. apply lengths_length. exact HlA.
  - intros Hk. exists p. split; [exact Hp | apply Hidx; exact Hk].
  - intros q j. rewrite HA. lia.
Qed.

(** A granted request, cell by cell: the state it leaves and the
    hypothetical state [tb] that passed the safety check. *)
Lemma requestResources_granted pid req b b' :
  requestResources pid req b = Some (true, b') →
  ∃ p tb,
    index pid = Some p ∧ p < length (completed b) ∧
    length <$> allocation b' = length <$> allocation b ∧
    max b' = max b ∧
    available b' = available b ∧
    resources b' = resources b ∧
    completed b' = <[p:=true]> (completed b) ∧
    (0 < length req → p < length (allocation b)) ∧
    (∀ q j, cell (allocation b') q j =
       (cell (allocation b) q j + upto_row pid (length req) req q j)%Z) ∧
    (∀ j, j < length req →
       (entry req j ≤ Need b p j)%Z ∧ (entry req j ≤ entry (available b) j)%Z) ∧
    allocation tb = allocation b' ∧
    max tb = max b ∧
    length (available tb) = length (available b) ∧
    (∀ j, entry (available tb) j = (entry (available b) j - entry req j)%Z) ∧
    isSafeState tb = Some true.
Proof.
  intros H. destruct (requestResources_true _ _ _ _ H)
    as (p & tAv & tRs & tb & Hp & Hlt & Hex & Htent & Hcons & Hsafe & Hgive & Hmax & Hcomp).
  destruct (tentative_loop _ _ _ _ _ _ _ _ _ Htent)
    as (HlA & HlAv & HlRs & Hidx & HA & HAv & HRs).
  destruct (give_back_loop _ _ _ _ _ _ Hgive) as (HlAv' & HlRs' & HAv' & HRs').
  destruct (construct_Some _ _ _ _ Hcons) as (HtA & HtM & HtAv).
  exists p, tb.
  assert (available b' = available b) as Havail.
  { apply entry_ext; [congruence |]. intros j. rewrite HAv', HAv. lia. }
  assert (resources b' = resources b) as Hres.
  { apply entry_ext; [congruence |]. intros j. rewrite HRs', HRs. lia. }
  assert (0 < length req → p < length (allocation b)) as Hidx'.
  { intros Hk. destruct (Hidx Hk) as (p' & Hp' & Hlt'). congruence. }
  assert (∀ j, j < length req →
            (entry req j ≤ Need b p j)%Z ∧ (entry req j ≤ entry (available b) j)%Z) as Hadm.
  { intros j Hj. destruct (exceeds_false _ _ _ _ _ Hex j) as (p' & Hp' & Hle); [lia |].
    congruence. }
  assert (∀ j, entry (available tb) j = (entry (available b) j - entry req j)%Z) as HtAv'.
  { intros j. rewrite HtAv, HAv, upto_length. reflexivity. }
  assert (length (available tb) = length (available b)) as HtAvl by congruence.
  auto 20.
Qed.

Lemma total_grant pid req b b' r :
  requestResources pid req b = Some (true, b') →
  total b' r = (total b r + entry req r)%Z.
Proof.
  intros H. destruct (requestResources_granted _ _ _ _ H)
    as (p & tb & Hp & _ & HlA & _ & Havail & _ & _ & Hidx & HA & _).
  unfold total.
  rewrite (held_all_moved b b' pid (length req) req r 1).
  - rewrite Havail, upto_length. lia.
  - unfold numProcesses. apply lengths_length. exact HlA.
  - intros Hk. exists p. split; [exact Hp | apply Hidx; exact Hk].
  - intros q j. rewrite HA. lia.
Qed.

(** * Well-formedness across a call *)

Lemma same_shape_rectangular b b' :
  length <$> allocation b' = length <$> allocation b →
  max b' = max b → length (available b') = length (available b) →
  rectangular b → rectangular b' ∧
    numProcesses b' = numProcesses b ∧ numResources b' = numResources b.
Proof.
  intros HlA Hmax Hlav (Hn & Hrows & Hml & Hmrows & Hal).
  assert (numProcesses b' = numProcesses b) as Hn'.
  { unfold numProcesses. apply lengths_length. exact HlA. }
  assert (numResources b' = numResources b) as Hm'.
  { unfold numResources.
    assert ((length <$> allocation b') !! 0 = (length <$> allocation b) !! 0) as H0
      by (rewrite HlA; reflexivity).
    rewrite !list_lookup_fmap in H0.
    destruct (allocation b' !! 0), (allocation b !! 0); simpl in *; congruence. }
  split; [| auto].
  unfold rectangular. rewrite Hn', Hm', Hmax, Hlav.
  repeat split; try assumption.
  apply Forall_lookup. intros p row Hrow.
  destruct (lengths_row _ _ _ _ HlA Hrow) as (row' & Hrow' & Hlen).
  rewrite Forall_lookup in Hrows. rewrite <- (Hrows p row' Hrow'). congruence.
Qed.

Lemma Forall_entry_nonneg v j : Forall (λ d, (0 ≤ d)%Z) v → (0 ≤ entry v j)%Z.
Proof.
  intros Hall. unfold entry. destruct (v !! j) as [d|] eqn:Hd; simpl; [| lia].
  rewrite Forall_lookup in Hall. exact (Hall j d Hd).
Qed.

Lemma upto_nonneg k v j : Forall (λ d, (0 ≤ d)%Z) v → (0 ≤ upto k v j)%Z.
Proof.
  intros Hall. unfold upto. case_decide; [apply Forall_entry_nonneg; exact Hall | lia].
Qed.

Lemma upto_row_nonneg pid k v q j :
  Forall (λ d, (0 ≤ d)%Z) v → (0 ≤ upto_row pid k v q j)%Z.
Proof.
  intros Hall. unfold upto_row. case_decide; [apply upto_nonneg; exact Hall | lia].
Qed.

Lemma grant_well_formed pid req b b' :
  well_formed b →
  Forall (λ d, (0 ≤ d)%Z) req →
  (∀ r, r < numResources b → (total b r + entry req r ≤ INT_MAX)%Z) →
  requestResources pid req b = Some (true, b') →
  well_formed b'.
Proof.
  intros (Hrect & Hnn & Hneed & Havail & Hmax) Hreq Hcap H.
  pose proof (λ r, total_grant _ _ _ _ r H) as Htotal.
  destruct (requestResources_granted _ _ _ _ H)
    as (p & tb & Hp & _ & HlA & HM & HAv & _ & _ & Hidx & HA & Hadm & _).
  destruct (same_shape_rectangular b b' HlA HM) as (Hrect' & Hn' & Hm');
    [congruence | exact Hrect |].
  split; [exact Hrect' |]. split; [| split; [| split]].
  - intros q r. rewrite HA. pose proof (Hnn q r).
    pose proof (upto_row_nonneg pid (length req) req q r Hreq). lia.
  - intros q r Hq Hr. rewrite Hn' in Hq. rewrite Hm' in Hr.
    specialize (Hneed q r Hq Hr). unfold Need in *. rewrite HM, HA.
    pose proof (upto_row_nonneg pid (length req) req q r Hreq) as Hnonneg.
    split; [| lia].
    rewrite (upto_row_Some _ _ _ _ _ _ Hp). unfold upto.
    destruct (decide (q = p)) as [->|Hne]; [| lia].
    destruct (decide (r < length req)) as [Hlt|Hge]; [| lia].
    destruct (Hadm r Hlt) as [Hle _]. unfold Need in Hle. unfold INT_MIN. lia.
  - intros r Hr. rewrite Hm' in Hr. rewrite HAv, Htotal.
    split; [apply Havail; exact Hr | apply Hcap; exact Hr].
  - intros q r. rewrite HM. apply Hmax.
Qed.

(** A state that differs from a well-formed one only by a smaller
    [available] vector, still representable, is well-formed. *)
Lemma lower_available_well_formed b t :
  well_formed b →
  allocation t = allocation b → max t = max b →
  length (available t) = length (available b) →
  (∀ r, (INT_MIN ≤ entry (available t) r ≤ entry (available b) r)%Z) →
  well_formed t.
Proof.
  intros (Hrect & Hnn & Hneed & Havail & Hmax) HA HM Hl Hle.
  destruct (same_shape_rectangular b t) as (Hrect' & Hn' & Hm');
    [congruence | exact HM | exact Hl | exact Hrect |].
  split; [exact Hrect' |]. split; [| split; [| split]].
  - intros q r. rewrite HA. apply Hnn.
  - intros q r Hq Hr. unfold Need. rewrite HA, HM. apply Hneed; congruence.
  - intros r Hr. split; [apply Hle |].
    unfold total. rewrite Hn'. rewrite (held_same b t) by (intros; rewrite HA; reflexivity).
    rewrite Hm' in Hr. destruct (Havail r Hr) as [_ Hhi]. unfold total in Hhi.
    specialize (Hle r). lia.
  - intros q r. rewrite HM. apply Hmax.
Qed.

(** Moving to a state where every Need grew by no more than the work
    vector met by the process keeps an ordering safe. *)
Lemma safe_ordering_transfer b b' order :
  numProcesses b' = numProcesses b →
  numResources b' = numResources b →
  (NoDup order → ∀ k p r, order !! k = Some p → r < numResources b →
     (Need b' p r - Need b p r ≤
        work_before b' order k r - work_before b order k r)%Z) →
  safe_ordering b order → safe_ordering b' order.
Proof.
  intros Hn Hm Hdiff [Hperm Hvalid].
  assert (NoDup order) as Hnd by (rewrite Hperm; apply NoDup_seq).
  split; [rewrite Hn; exact Hperm |].
  intros k p Hk r Hr. rewrite Hm in Hr.
  specialize (Hvalid k p Hk r Hr). specialize (Hdiff Hnd k p r Hk Hr). lia.
Qed.

Lemma release_well_formed pid rel b b' :
  well_formed b →
  (∀ p r, index pid = Some p → (0 ≤ entry rel r ≤ cell (allocation b) p r)%Z) →
  releaseResources pid rel b = Some (tt, b') →
  well_formed b'.
Proof.
  intros (Hrect & Hnn & Hneed & Havail & Hmax) Hvalid H.
  pose proof (λ r, total_release _ _ _ _ r H) as Htotal.
  destruct (releaseResources_Some _ _ _ _ H)
    as (p & Hp & _ & HlA & HlAv & _ & HM & _ & Hidx & HA & HAv & _).
  destruct (same_shape_rectangular b b' HlA HM HlAv Hrect) as (Hrect' & Hn' & Hm').
  assert (nonneg_allocation b') as Hnn'.
  { intros q r. rewrite HA, (upto_row_Some _ _ _ _ _ _ Hp). unfold upto.
    pose proof (Hnn q r). pose proof (Hvalid p r Hp).
    repeat case_decide; subst; lia. }
  split; [exact Hrect' |]. split; [exact Hnn' |]. split; [| split].
  - intros q r Hq Hr. rewrite Hn' in Hq. rewrite Hm' in Hr.
    specialize (Hneed q r Hq Hr). split.
    + unfold Need in *. rewrite HM, HA, (upto_row_Some _ _ _ _ _ _ Hp). unfold upto.
      pose proof (Hvalid p r Hp). repeat case_decide; lia.
    + unfold Need. rewrite HM. pose proof (Hnn' q r). pose proof (Hmax q r). lia.
  - intros r Hr. rewrite Hm' in Hr. rewrite HAv, Htotal.
    destruct (Havail r Hr). pose proof (Hvalid p r Hp). split; [lia | assumption].
  - intros q r. rewrite HM. apply Hmax.
Qed.

Lemma not_in_take (order : list nat) k p :
  NoDup order → order !! k = Some p → p ∉ take k order.
Proof.
  intros Hnd Hk Hin. apply elem_of_take in Hin. destruct Hin as (i & Hi & Hlt).
  pose proof (NoDup_lookup _ _ _ _ Hnd Hi Hk). lia.
Qed.

(** * Calls that return *)

Lemma checked_fits z : (INT_MIN ≤ z ≤ INT_MAX)%Z → checked z = Some z.
Proof. intros H. apply checked_Some. auto. Qed.

(** [releaseResources] compares nothing: with its subscripts in range and
    its sums representable, it runs to the end. *)
Lemma releaseResources_returns pid rel b p :
  index pid = Some p →
  p < length (completed b) →
  length rel ≤ length (available b) →
  length rel ≤ length (resources b) →
  (∀ j, j < length rel →
     (∃ row, allocation b !! p = Some row ∧ j < length row) ∧
     (INT_MIN ≤ cell (allocation b) p j - entry rel j ≤ INT_MAX)%Z ∧
     (INT_MIN ≤ entry (available b) j + entry rel j ≤ INT_MAX)%Z ∧
     (INT_MIN ≤ entry (resources b) j + entry rel j ≤ INT_MAX)%Z) →
  ∃ b', releaseResources pid rel b = Some (tt, b').
Proof.
  intros Hp Hc Hla Hlr Hok. unfold releaseResources.
  destruct (for_loop_total
    (λ i t,
       length <$> allocation t = length <$> allocation b ∧
       length (available t) = length (available b) ∧
       length (resources t) = length (resources b) ∧
       completed t = completed b ∧
       (∀ j, i ≤ j → cell (allocation t) p j = cell (allocation b) p j ∧
                     entry (available t) j = entry (available b) j ∧
                     entry (resources t) j = entry (resources b) j))
    (length rel) (release_cell pid rel) b) as (b1 & Hrun & _ & _ & _ & Hcomp & _).
  - repeat split; reflexivity.
  - intros i t Hi (HlA & HlAv & HlRs & Hcomp & Hrest).
    destruct (Hok i Hi) as ((row & Hrow & Hlen) & HfA & HfAv & HfRs).
    destruct (lengths_row _ (allocation t) _ _ (eq_sym HlA) Hrow) as (trow & Htrow & Htl).
    destruct (Hrest i (Nat.le_refl i)) as (HcA & HcAv & HcRs).
    unfold release_cell. rewrite Hp. simpl. rewrite Htrow. simpl.
    rewrite (lookup_entry trow i) by lia. simpl.
    rewrite (lookup_entry rel i) by lia. simpl.
    rewrite <- (cell_row _ _ _ _ Htrow), HcA.
    unfold int_sub. rewrite checked_fits by exact HfA. simpl.
    rewrite vset_lt by lia. simpl.
    rewrite vset_lt by (apply lookup_lt_Some in Htrow; exact Htrow). simpl.
    rewrite (lookup_entry (available t) i) by lia. simpl. rewrite HcAv.
    unfold int_add. rewrite checked_fits by exact HfAv. simpl.
    rewrite vset_lt by lia. simpl.
    rewrite (lookup_entry (resources t) i) by lia. simpl. rewrite HcRs.
    rewrite checked_fits by exact HfRs. simpl.
    rewrite vset_lt by lia. simpl.
    eexists. split; [reflexivity |]. simpl.
    split; [rewrite <- HlA; apply lengths_insert; exact Htrow |].
    split; [rewrite length_insert; exact HlAv |].
    split; [rewrite length_insert; exact HlRs |].
    split; [exact Hcomp |].
    intros j Hj. destruct (Hrest j) as (HjA & HjAv & HjRs); [lia |].
    rewrite cell_insert by (exact Htrow || lia).
    rewrite !entry_insert by lia.
    rewrite decide_False by lia. rewrite !(decide_False (P := j = i)) by lia.
    auto.
  - rewrite Hrun. simpl. rewrite Hp. simpl.
    rewrite vset_lt by (rewrite Hcomp; exact Hc). simpl. eauto.
Qed.

(** * One [completed] flag per process *)

Lemma construct_completed alloc mx avail b :
  construct alloc mx avail = Some b → length (completed b) = numProcesses b.
Proof.
  unfold construct. intros H.
  apply bind_Some_inv in H. destruct H as (row0 & _ & H).
  apply bind_Some_inv in H. destruct H as (res & _ & H).
  inversion H. unfold numProcesses. simpl. apply length_replicate.
Qed.

Lemma requestResources_completed pid req b ok b' :
  requestResources pid req b = Some (ok, b') →
  length (completed b) = numProcesses b →
  length (completed b') = numProcesses b'.
Proof.
  intros H Hc. destruct ok.
  - destruct (requestResources_granted _ _ _ _ H)
      as (p & _ & _ & _ & HlA & _ & _ & _ & Hcomp & _).
    rewrite Hcomp, length_insert, Hc. unfold numProcesses.
    symmetry. apply lengths_length. exact HlA.
  - rewrite (requestResources_false _ _ _ _ H). exact Hc.
Qed.

Lemma releaseResources_completed pid rel b b' :
  releaseResources pid rel b = Some (tt, b') →
  length (completed b) = numProcesses b →
  length (completed b') = numProcesses b'.
Proof.
  intros H Hc. destruct (releaseResources_Some _ _ _ _ H)
    as (p & _ & _ & HlA & _ & _ & _ & Hcomp & _).
  rewrite Hcomp, length_insert, Hc. unfold numProcesses.
  symmetry. apply lengths_length. exact HlA.
Qed.

(** * Process identifiers out of range *)

Lemma index_in_range pid p n :
  index pid = Some p → p < n → (0 ≤ pid < Z.of_nat n)%Z.
Proof. intros Hp Hlt. apply index_Some in Hp. lia. Qed.

Lemma releaseResources_out_of_range pid rel b :
  length (completed b) = numProcesses b →
  ¬ (0 ≤ pid < Z.of_nat (numProcesses b))%Z →
  releaseResources pid rel b = None.
Proof.
  intros Hc Hout. destruct (releaseResources pid rel b) as [[[] b']|] eqn:H; [| reflexivity].
  destruct (releaseResources_Some _ _ _ _ H) as (p & Hp & Hlt & _).
  exfalso. apply Hout. apply (index_in_range pid p); [exact Hp | lia].
Qed.

Lemma requestResources_out_of_range pid req b :
  length (completed b) = numProcesses b →
  ¬ (0 ≤ pid < Z.of_nat (numProcesses b))%Z →
  requestResources pid req b = None ∨ requestResources pid req b = Some (false, b).
Proof.
  intros Hc Hout. destruct (requestResources pid req b) as [[[] b']|] eqn:H.
  - destruct (requestResources_true _ _ _ _ H) as (p & _ & _ & _ & Hp & Hlt & _).
    exfalso. apply Hout. apply (index_in_range pid p); [exact Hp | lia].
  - right. rewrite (requestResources_false _ _ _ _ H). reflexivity.
  - left. reflexivity.
Qed.

Lemma requestResources_out_of_range_nonempty pid req b :
  ¬ (0 ≤ pid < Z.of_nat (numProcesses b))%Z →
  req ≠ [] →
  requestResources pid req b = None.
Proof.
  intros Hout Hne. destruct req as [|d req]; [congruence |].
  unfold requestResources. simpl.
  destruct (index pid) as [p|] eqn:Hp; [| reflexivity]. simpl.
  destruct (max b !! p) as [mrow|]; [| reflexivity]. simpl.
  destruct (mrow !! 0) as [m|]; [| reflexivity]. simpl.
  destruct (allocation b !! p) as [arow|] eqn:Ha; [| reflexivity].
  exfalso. apply Hout. apply (index_in_range pid p); [exact Hp |].
  apply lookup_lt_Some in Ha. exact Ha.
Qed.

(** * Concrete states *)

(** [well_formed] on a state written out in full, of at most five
    processes and three resources. *)
Ltac concrete_well_formed :=
  split; [| split; [| split; [| split]]];
  [ unfold rectangular; repeat split; try (vm_compute; lia); repeat constructor
  | intros p r; do 6 (try destruct p as [|p]); do 4 (try destruct r as [|r]);
      vm_compute; congruence
  | intros p r Hp Hr; vm_compute in Hp; vm_compute in Hr;
      do 5 (try destruct p as [|p]); try lia;
      do 3 (try destruct r as [|r]); try lia; vm_compute; split; congruence
  | intros r Hr; vm_compute in Hr;
      do 3 (try destruct r as [|r]); try lia; vm_compute; split; congruence
  | intros p r; do 6 (try destruct p as [|p]); do 4 (try destruct r as [|r]);
      vm_compute; congruence ].

Lemma scenario_banker_well_formed : well_formed scenario_banker.
Proof. concrete_well_formed. Qed.

Lemma scenario_granted_well_formed : well_formed scenario_granted.
Proof. concrete_well_formed. Qed.

Lemma scenario_first_request :
  requestResources 1 [1; 0; 2]%Z scenario_banker = Some (true, scenario_granted).
Proof. vm_compute. reflexivity. Qed.

(** * Properties of the resource manager *)

(** C1, as stated, fails on states and calls the class accepts.
    (i) With two processes holding nothing, claims 1 and 0 and nothing
    available, a demand of -1 by process 1 is granted: the hypothetical
    state has one unit available and is safe, the state left by the call
    has none, and [isSafeState] returns false on it.
    (ii) On a state in which process 0 holds -2 units (what an unchecked
    release of 2 leaves), the demand of 1 by process 1 is granted and
    [isSafeState] returns false on the state after the call. *)
Lemma admission_counterexample :
  (well_formed (mkBanker [[0]; [0]]%Z [[1]; [0]]%Z [0]%Z [0]%Z [false; false]) ∧
   requestResources 1 [-1]%Z
       (mkBanker [[0]; [0]]%Z [[1]; [0]]%Z [0]%Z [0]%Z [false; false])
     = Some (true, mkBanker [[0]; [-1]]%Z [[1]; [0]]%Z [0]%Z [0]%Z [false; true]) ∧
   isSafeState (mkBanker [[0]; [-1]]%Z [[1]; [0]]%Z [0]%Z [0]%Z [false; true])
     = Some false) ∧
  (releaseResources 0 [2]%Z
       (mkBanker [[0]; [1]; [0]]%Z [[1]; [2]; [4]]%Z [1]%Z [1]%Z [false; false; false])
     = Some (tt, mkBanker [[-2]; [1]; [0]]%Z [[1]; [2]; [4]]%Z [3]%Z [3]%Z
                   [false; false; false]) ∧
   requestResources 1 [1]%Z
       (mkBanker [[-2]; [1]; [0]]%Z [[1]; [2]; [4]]%Z [3]%Z [3]%Z [false; false; false])
     = Some (true, mkBanker [[-2]; [2]; [0]]%Z [[1]; [2]; [4]]%Z [3]%Z [3]%Z
                     [false; true; false]) ∧
   isSafeState (mkBanker [[-2]; [2]; [0]]%Z [[1]; [2]; [4]]%Z [3]%Z [3]%Z
                  [false; true; false])
     = Some false).
Proof.
  split; [split; [concrete_well_formed | split; vm_compute; reflexivity] |].
  repeat split; vm_compute; reflexivity.
Qed.

(** C1, amended — Admission implies safety.  On a well-formed state (at
    least one process, rectangular tables of matching dimensions,
    non-negative allocations, quantities that fit an [int]), a request for
    non-negative amounts that [requestResources] grants (returns [true])
    leaves a state on which [isSafeState] returns [true], provided the
    column totals of the new state still fit an [int]. *)
Theorem admission_implies_safety pid req b b' :
  well_formed b →
  Forall (λ d, (0 ≤ d)%Z) req →
  (∀ r, r < numResources b → (total b r + entry req r ≤ INT_MAX)%Z) →
  requestResources pid req b = Some (true, b') →
  isSafeState b' = Some true.
Proof.
  intros Hwf Hreq Hcap H.
  pose proof (grant_well_formed pid req b b' Hwf Hreq Hcap H) as Hwf'.
  destruct (requestResources_granted _ _ _ _ H)
    as (p & tb & Hp & _ & HlA & HM & HAv & _ & _ & Hidx & HA & Hadm
          & HtA & HtM & HtAvl & HtAv & Hsafe).
  assert (∀ r, (0 ≤ entry (available b) r - entry req r)%Z ∨ entry req r = 0%Z) as Hroom.
  { intros r. destruct (decide (r < length req)) as [Hlt|Hge].
    - left. destruct (Hadm r Hlt). lia.
    - right. apply entry_ge. lia. }
  assert (well_formed tb) as Hwft.
  { apply (lower_available_well_formed b'); try congruence.
    intros r. rewrite HtAv, HAv.
    pose proof (Forall_entry_nonneg req r Hreq).
    destruct Hwf' as (Hrect' & _ & _ & Havail' & _).
    split; [| lia].
    destruct (Hroom r) as [Hge|Hz]; [unfold INT_MIN; lia |].
    rewrite Hz, Z.sub_0_r.
    destruct (decide (r < numResources b')) as [Hr|Hr].
    - rewrite <- HAv. apply Havail'. exact Hr.
    - rewrite entry_ge; [unfold INT_MIN; lia |].
      destruct Hrect' as (_ & _ & _ & _ & Hl). rewrite <- HAv. lia. }
  apply (isSafeState_true_iff tb Hwft) in Hsafe. destruct Hsafe as [order Hord].
  apply (isSafeState_true_iff b' Hwf'). exists order.
  apply (safe_ordering_transfer tb b'); [| | | exact Hord].
  - unfold numProcesses. rewrite HtA. reflexivity.
  - unfold numResources. rewrite HtA. reflexivity.
  - intros _ k q r _ _. unfold Need, work_before. rewrite HtA, HtM, HM.
    rewrite (held_same b' tb) by (intros; rewrite HtA; reflexivity).
    rewrite HtAv, HAv. pose proof (Forall_entry_nonneg req r Hreq). lia.
Qed.

Lemma admission_implies_safety_witness :
  well_formed scenario_banker ∧
  Forall (λ d, (0 ≤ d)%Z) [1; 0; 2]%Z ∧
  (∀ r, r < numResources scenario_banker →
        (total scenario_banker r + entry [1; 0; 2]%Z r ≤ INT_MAX)%Z) ∧
  requestResources 1 [1; 0; 2]%Z scenario_banker = Some (true, scenario_granted) ∧
  isSafeState scenario_granted = Some true.
Proof.
  assert (Forall (λ d, (0 ≤ d)%Z) [1; 0; 2]%Z) as Hreq.
  { repeat constructor; lia. }
  assert (∀ r, r < numResources scenario_banker →
            (total scenario_banker r + entry [1; 0; 2]%Z r ≤ INT_MAX)%Z) as Hcap.
  { intros r Hr. vm_compute in Hr.
    do 3 (try destruct r as [|r]); try lia; vm_compute; congruence. }
  split; [exact scenario_banker_well_formed |].
  split; [exact Hreq |]. split; [exact Hcap |].
  split; [exact scenario_first_request |].
  exact (admission_implies_safety 1 [1; 0; 2]%Z scenario_banker scenario_granted
           scenario_banker_well_formed Hreq Hcap scenario_first_request).
Defined.

(** C2, as stated, fails on a rectangular state with a negative
    allocation (what an unchecked release of 1 by process 0 leaves):
    process 0 holds -1 with claim 0, process 1 holds 0 with claim 1, one
    unit is available.  The ordering 1, 0 covers every Need, but the scan
    marks process 0 first, is left with no unit, and [isSafeState]
    returns false. *)
Lemma isSafeState_counterexample :
  rectangular (mkBanker [[-1]; [0]]%Z [[0]; [1]]%Z [1]%Z [1]%Z [false; false]) ∧
  safe_ordering (mkBanker [[-1]; [0]]%Z [[0]; [1]]%Z [1]%Z [1]%Z [false; false]) [1; 0] ∧
  isSafeState (mkBanker [[-1]; [0]]%Z [[0]; [1]]%Z [1]%Z [1]%Z [false; false])
    = Some false.
Proof.
  split; [| split].
  - unfold rectangular. repeat split; try (vm_compute; lia); repeat constructor.
  - split.
    + apply (Permutation_swap 0 1 []).
    + intros k p Hk r Hr. vm_compute in Hr.
      assert (r = 0) as -> by lia.
      destruct k as [|[|k]]; inversion Hk; subst; vm_compute; congruence.
  - vm_compute. reflexivity.
Qed.

(** C2, amended — What [isSafeState] decides.  On a well-formed state (at
    least one process, rectangular tables of matching dimensions,
    non-negative allocations, quantities that fit an [int]) the method
    returns; it returns [true] exactly when some ordering of all processes
    covers every Need with [available] plus the allocations of the
    processes placed earlier; it returns [false] exactly when, after some
    number of passes of the scan, a further full pass marks no new process
    while some process is still unmarked. *)
Theorem isSafeState_decides_safety b :
  well_formed b →
  (∃ answer, isSafeState b = Some answer) ∧
  (isSafeState b = Some true ↔ ∃ order, safe_ordering b order) ∧
  (isSafeState b = Some false ↔
   ∃ need k st st',
     need_matrix b (numProcesses b) (numResources b) = Some need ∧
     passes b need k = Some st ∧
     scan_pass b need (numProcesses b) (numResources b) st = Some st' ∧
     safe st' = safe st ∧
     ∃ p, safe st !! p = Some false).
Proof.
  intros Hwf. split; [| split].
  - destruct (isSafeState_result b Hwf)
      as (_ & _ & _ & _ & _ & _ & _ & _ & _ & [[_ Hres]|(_ & _ & _ & Hres)]); eauto.
  - apply isSafeState_true_iff. exact Hwf.
  - split.
    + intros Hfalse.
      destruct (isSafeState_result b Hwf)
        as (need & k & st & st' & Hneed & Hk & Hpass & Hinv & Hinv'
              & [[Hge Hres]|(Hlt & Hsame & Hstuck & Hres)]); [congruence |].
      exists need, k, st, st'. repeat (split; [assumption |]).
      destruct (unmarked_exists b st' Hinv' Hlt) as (p & _ & Hp).
      exists p. rewrite <- Hsame. exact Hp.
    + intros (need & k & st & st' & Hneed & Hk & Hpass & Hsame & p & Hp).
      pose proof Hwf as (Hrect & Hnn & Hrep).
      destruct (need_matrix_spec b Hrect Hrep) as (need0 & Hneed0 & Hnl & Hnrows & Hncells).
      rewrite Hneed in Hneed0. inversion Hneed0. subst need0.
      pose proof (passes_invariant b need Hwf Hnl Hnrows Hncells k st Hk) as Hinv.
      destruct (scan_pass_spec b need Hwf Hnl Hnrows Hncells st Hinv)
        as (st2 & Hpass2 & Hinv' & Hfin & Hprog).
      rewrite Hpass in Hpass2. inversion Hpass2. subst st2.
      assert (finished st' = true) as Hf.
      { destruct (finished st') eqn:Hf; [reflexivity |].
        specialize (Hprog eq_refl).
        pose proof (same_marks_same_count b st st' Hinv Hinv' Hsame). lia. }
      destruct (Hfin Hf) as (_ & _ & _ & Hstuck).
      assert (¬ ∃ order, safe_ordering b order) as Hunsafe.
      { apply (stuck_unsafe b st Hnn Hinv Hstuck).
        exists p. split; [| exact Hp].
        apply lookup_lt_Some in Hp. destruct Hinv as (Hls & _). lia. }
      destruct (isSafeState_result b Hwf)
        as (_ & _ & _ & st3 & _ & _ & _ & _ & Hinv3 & [[Hge Hres]|(_ & _ & _ & Hres)]);
        [| exact Hres].
      exfalso. apply Hunsafe. apply (all_marked_safe b st3 Hinv3 Hge).
Qed.

Lemma isSafeState_decides_safety_witness :
  well_formed scenario_banker ∧
  isSafeState scenario_banker = Some true ∧
  ∃ order, safe_ordering scenario_banker order.
Proof.
  split; [exact scenario_banker_well_formed |].
  assert (isSafeState scenario_banker = Some true) as Hsafe by (vm_compute; reflexivity).
  split; [exact Hsafe |].
  exact (proj1 (proj1 (proj2 (isSafeState_decides_safety scenario_banker
                                 scenario_banker_well_formed))) Hsafe).
Defined.

(** C3, as stated, fails: the first request of the scenario is granted and
    the sum for resource 0 goes from 10 to 11. *)
Lemma conservation_counterexample :
  requestResources 1 [1; 0; 2]%Z scenario_banker = Some (true, scenario_granted) ∧
  total scenario_banker 0 = 10%Z ∧
  total scenario_granted 0 = 11%Z ∧
  total scenario_granted 0 ≠ total scenario_banker 0.
Proof.
  split; [exact scenario_first_request |].
  split; [vm_compute; reflexivity |]. split; [vm_compute; reflexivity |].
  vm_compute. congruence.
Qed.

(** C3, amended — For every resource [r], along any sequence of request
    and release calls that return, [sum_p allocation[p][r] + available[r]]
    ends at its initial value plus the amounts [demand[r]] of the requests
    that were granted: a release and a denied request leave it unchanged,
    a granted request raises it by [demand[r]]. *)
Theorem total_grows_by_grants ops r b g b' :
  run ops r b = Some (g, b') →
  total b' r = (total b r + g)%Z.
Proof.
  revert b g. induction ops as [|[pid req|pid rel] ops IH]; intros b g H; simpl in H.
  - inversion H. lia.
  - apply bind_Some_inv in H. destruct H as ([ok b1] & Hcall & H).
    apply bind_Some_inv in H. destruct H as ([g2 b2] & Hrest & H).
    inversion H. subst. rewrite (IH _ _ Hrest). destruct ok.
    + rewrite (total_grant _ _ _ _ r Hcall). lia.
    + rewrite (requestResources_false _ _ _ _ Hcall). lia.
  - apply bind_Some_inv in H. destruct H as ([[] b1] & Hcall & H).
    rewrite (IH _ _ H), (total_release _ _ _ _ r Hcall). reflexivity.
Qed.

Lemma total_grows_by_grants_witness :
  run [Request 1 [1; 0; 2]%Z; Request 0 [4; 3; 1]%Z; Release 1 [3; 0; 2]%Z]
      0 scenario_banker
    = Some (1%Z, mkBanker [[0; 1; 0]; [0; 0; 0]; [3; 0; 2]; [2; 1; 1]; [0; 0; 2]]%Z
                   scenario_max [6; 3; 4]%Z [10; 2; 7]%Z
                   [false; false; false; false; false]) ∧
  total (mkBanker [[0; 1; 0]; [0; 0; 0]; [3; 0; 2]; [2; 1; 1]; [0; 0; 2]]%Z
           scenario_max [6; 3; 4]%Z [10; 2; 7]%Z
           [false; false; false; false; false]) 0
    = (total scenario_banker 0 + 1)%Z.
Proof.
  assert (run [Request 1 [1; 0; 2]%Z; Request 0 [4; 3; 1]%Z; Release 1 [3; 0; 2]%Z]
            0 scenario_banker
          = Some (1%Z, mkBanker [[0; 1; 0]; [0; 0; 0]; [3; 0; 2]; [2; 1; 1]; [0; 0; 2]]%Z
                         scenario_max [6; 3; 4]%Z [10; 2; 7]%Z
                         [false; false; false; false; false])) as Hrun
    by (vm_compute; reflexivity).
  split; [exact Hrun |].
  exact (total_grows_by_grants _ _ _ _ _ Hrun).
Defined.

(** C4 — Denial implies no mutation.  Whenever [requestResources] returns
    [false], on whichever of its three paths, [allocation] and [available]
    (and the rest of the state) are what they were before the call. *)
Theorem denial_leaves_state pid req b b' :
  requestResources pid req b = Some (false, b') →
  allocation b' = allocation b ∧ available b' = available b ∧ b' = b.
Proof.
  intros H. rewrite (requestResources_false pid req b b' H). auto.
Qed.

Lemma denial_leaves_state_witness :
  requestResources 0 [4; 3; 1]%Z scenario_granted = Some (false, scenario_granted) ∧
  allocation scenario_granted = allocation scenario_granted ∧
  available scenario_granted = available scenario_granted ∧
  scenario_granted = scenario_granted.
Proof.
  assert (requestResources 0 [4; 3; 1]%Z scenario_granted
          = Some (false, scenario_granted)) as Hcall by (vm_compute; reflexivity).
  split; [exact Hcall |].
  exact (denial_leaves_state 0 [4; 3; 1]%Z scenario_granted scenario_granted Hcall).
Defined.

(** C5, as stated, fails.
    (i) Amounts at most the allocation may be negative: with processes
    holding 1 and 0 of claims 2 and 2 and one unit available, the state is
    safe; releasing -1 for process 1 leaves each process holding 1 with
    nothing available, and [isSafeState] returns false.
    (ii) On a state with a negative allocation, a release of one unit that
    the process holds turns the answer of [isSafeState] from true to
    false. *)
Lemma release_counterexample :
  (well_formed (mkBanker [[1]; [0]]%Z [[2]; [2]]%Z [1]%Z [1]%Z [false; false]) ∧
   isSafeState (mkBanker [[1]; [0]]%Z [[2]; [2]]%Z [1]%Z [1]%Z [false; false])
     = Some true ∧
   (entry [-1]%Z 0 ≤ cell [[1]; [0]]%Z 1 0)%Z ∧
   releaseResources 1 [-1]%Z
       (mkBanker [[1]; [0]]%Z [[2]; [2]]%Z [1]%Z [1]%Z [false; false])
     = Some (tt, mkBanker [[1]; [1]]%Z [[2]; [2]]%Z [0]%Z [0]%Z [false; false]) ∧
   isSafeState (mkBanker [[1]; [1]]%Z [[2]; [2]]%Z [0]%Z [0]%Z [false; false])
     = Some false) ∧
  (isSafeState (mkBanker [[-2]; [2]; [0]]%Z [[1]; [2]; [4]]%Z [2]%Z [3]%Z
                  [false; false; false])
     = Some true ∧
   (0 ≤ entry [1]%Z 0 ≤ cell [[-2]; [2]; [0]]%Z 1 0)%Z ∧
   releaseResources 1 [1]%Z
       (mkBanker [[-2]; [2]; [0]]%Z [[1]; [2]; [4]]%Z [2]%Z [3]%Z [false; false; false])
     = Some (tt, mkBanker [[-2]; [1]; [0]]%Z [[1]; [2]; [4]]%Z [3]%Z [4]%Z
                   [false; false; false]) ∧
   isSafeState (mkBanker [[-2]; [1]; [0]]%Z [[1]; [2]; [4]]%Z [3]%Z [4]%Z
                  [false; false; false])
     = Some false).
Proof.
  split; [split; [concrete_well_formed |] |];
    repeat split; vm_compute; try reflexivity; congruence.
Qed.

(** C5, amended — Release monotonicity.  On a well-formed state (at least
    one process, rectangular tables of matching dimensions, non-negative
    allocations, quantities that fit an [int]) on which [isSafeState]
    returns [true], a release of amounts between 0 and what the process
    holds leaves a state on which [isSafeState] returns [true]. *)
Theorem release_keeps_safe pid rel b b' :
  well_formed b →
  isSafeState b = Some true →
  (∀ p r, index pid = Some p → (0 ≤ entry rel r ≤ cell (allocation b) p r)%Z) →
  releaseResources pid rel b = Some (tt, b') →
  isSafeState b' = Some true.
Proof.
  intros Hwf Hsafe Hvalid H.
  pose proof (release_well_formed _ _ _ _ Hwf Hvalid H) as Hwf'.
  destruct (releaseResources_Some _ _ _ _ H)
    as (p & Hp & _ & HlA & HlAv & _ & HM & _ & Hidx & HA & HAv & _).
  destruct Hwf as (Hrect & Hwf).
  destruct (same_shape_rectangular b b' HlA HM HlAv Hrect) as (_ & Hn' & Hm').
  apply (isSafeState_true_iff b (conj Hrect Hwf)) in Hsafe. destruct Hsafe as [order Hord].
  apply (isSafeState_true_iff b' Hwf'). exists order.
  apply (safe_ordering_transfer b b'); [exact Hn' | exact Hm' | | exact Hord].
  intros Hnd k q r Hk Hr. unfold Need, work_before. rewrite HM, HA, HAv.
  rewrite (held_shift b b' r (take k order) p (- upto (length rel) rel r)%Z).
  - rewrite (upto_row_Some _ _ _ _ _ _ Hp), upto_length.
    pose proof (Hvalid p r Hp).
    destruct (decide (q = p)) as [->|Hne].
    + rewrite decide_False by (apply not_in_take; assumption). lia.
    + case_decide; lia.
  - apply (sublist_NoDup _ order); [exact Hnd | apply sublist_take].
  - intros q'. rewrite HA, (upto_row_Some _ _ _ _ _ _ Hp). case_decide; lia.
Qed.

Lemma release_keeps_safe_witness :
  well_formed scenario_granted ∧
  isSafeState scenario_granted = Some true ∧
  (∀ p r, index 1 = Some p →
     (0 ≤ entry [3; 0; 2]%Z r ≤ cell (allocation scenario_granted) p r)%Z) ∧
  releaseResources 1 [3; 0; 2]%Z scenario_granted
    = Some (tt, mkBanker [[0; 1; 0]; [0; 0; 0]; [3; 0; 2]; [2; 1; 1]; [0; 0; 2]]%Z
                  scenario_max [6; 3; 4]%Z [10; 2; 7]%Z
                  [false; false; false; false; false]) ∧
  isSafeState (mkBanker [[0; 1; 0]; [0; 0; 0]; [3; 0; 2]; [2; 1; 1]; [0; 0; 2]]%Z
                 scenario_max [6; 3; 4]%Z [10; 2; 7]%Z
                 [false; false; false; false; false]) = Some true.
Proof.
  assert (isSafeState scenario_granted = Some true) as Hsafe by (vm_compute; reflexivity).
  assert (∀ p r, index 1 = Some p →
            (0 ≤ entry [3; 0; 2]%Z r ≤ cell (allocation scenario_granted) p r)%Z) as Hvalid.
  { intros p r Hp. vm_compute in Hp. inversion Hp. subst p.
    do 4 (try destruct r as [|r]); vm_compute; split; congruence. }
  assert (releaseResources 1 [3; 0; 2]%Z scenario_granted
          = Some (tt, mkBanker [[0; 1; 0]; [0; 0; 0]; [3; 0; 2]; [2; 1; 1]; [0; 0; 2]]%Z
                        scenario_max [6; 3; 4]%Z [10; 2; 7]%Z
                        [false; false; false; false; false])) as Hcall
    by (vm_compute; reflexivity).
  split; [exact scenario_granted_well_formed |].
  split; [exact Hsafe |]. split; [exact Hvalid |]. split; [exact Hcall |].
  exact (release_keeps_safe _ _ _ _ scenario_granted_well_formed Hsafe Hvalid Hcall).
Defined.

(** C6, as stated, fails: process 0 of the scenario holds no unit of
    resource 0, yet releasing one unit of it returns normally, with a
    changed state in which the process holds -1. *)
Lemma release_excess_counterexample :
  (cell (allocation scenario_banker) 0 0 < entry [1]%Z 0)%Z ∧
  call (releaseResources 0 [1]%Z scenario_banker)
    = Returns tt (mkBanker [[-1; 1; 0]; [2; 0; 0]; [3; 0; 2]; [2; 1; 1]; [0; 0; 2]]%Z
                    scenario_max [4; 3; 2]%Z [8; 2; 5]%Z
                    [false; false; false; false; false]) ∧
  call (releaseResources 0 [1]%Z scenario_banker)
    ≠ Throws InvalidReleaseError scenario_banker.
Proof.
  split; [vm_compute; reflexivity |].
  split; [vm_compute; reflexivity |].
  vm_compute. discriminate.
Qed.

(** C6, amended — [releaseResources] does not compare the amounts with
    the allocation and signals no error.  With [processId] and the
    positions of [amounts] in range and the new values representable, the
    call returns normally, also when [amounts[r]] exceeds
    [allocation[processId][r]]: it lowers [allocation[processId][r]] by
    [amounts[r]], raises [available[r]] and [resources[r]] by
    [amounts[r]], and sets [completed[processId]] to false. *)
Theorem release_is_unchecked pid rel b p :
  index pid = Some p →
  p < length (completed b) →
  length rel ≤ length (available b) →
  length rel ≤ length (resources b) →
  (∀ j, j < length rel →
     (∃ row, allocation b !! p = Some row ∧ j < length row) ∧
     (INT_MIN ≤ cell (allocation b) p j - entry rel j ≤ INT_MAX)%Z ∧
     (INT_MIN ≤ entry (available b) j + entry rel j ≤ INT_MAX)%Z ∧
     (INT_MIN ≤ entry (resources b) j + entry rel j ≤ INT_MAX)%Z) →
  ∃ b',
    call (releaseResources pid rel b) = Returns tt b' ∧
    (∀ r, cell (allocation b') p r = (cell (allocation b) p r - entry rel r)%Z) ∧
    (∀ q r, q ≠ p → cell (allocation b') q r = cell (allocation b) q r) ∧
    (∀ r, entry (available b') r = (entry (available b) r + entry rel r)%Z) ∧
    (∀ r, entry (resources b') r = (entry (resources b) r + entry rel r)%Z) ∧
    max b' = max b ∧
    completed b' = <[p:=false]> (completed b).
Proof.
  intros Hp Hc Hla Hlr Hok.
  destruct (releaseResources_returns pid rel b p Hp Hc Hla Hlr Hok) as [b' Hcall].
  destruct (releaseResources_Some _ _ _ _ Hcall)
    as (p' & Hp' & _ & _ & _ & _ & HM & Hcomp & _ & HA & HAv & HRs).
  assert (p' = p) as -> by congruence.
  exists b'. rewrite Hcall. simpl.
  split; [reflexivity |]. split; [| split; [| auto]].
  - intros r. rewrite HA, (upto_row_Some _ _ _ _ _ _ Hp), decide_True by reflexivity.
    rewrite upto_length. reflexivity.
  - intros q r Hq. rewrite HA, (upto_row_Some _ _ _ _ _ _ Hp), decide_False by exact Hq.
    lia.
Qed.

Lemma release_is_unchecked_witness :
  ∃ b',
    call (releaseResources 0 [1]%Z scenario_banker) = Returns tt b' ∧
    (∀ r, cell (allocation b') 0 r
          = (cell (allocation scenario_banker) 0 r - entry [1]%Z r)%Z) ∧
    (∀ q r, q ≠ 0 → cell (allocation b') q r = cell (allocation scenario_banker) q r) ∧
    (∀ r, entry (available b') r
          = (entry (available scenario_banker) r + entry [1]%Z r)%Z) ∧
    (∀ r, entry (resources b') r
          = (entry (resources scenario_banker) r + entry [1]%Z r)%Z) ∧
    max b' = max scenario_banker ∧
    completed b' = <[0:=false]> (completed scenario_banker).
Proof.
  apply (release_is_unchecked 0 [1]%Z scenario_banker 0).
  - reflexivity.
  - simpl. lia.
  - simpl. lia.
  - simpl. lia.
  - intros j Hj. simpl in Hj. assert (j = 0) as -> by lia.
    split; [exists [0; 1; 0]%Z; split; [reflexivity | simpl; lia] |].
    vm_compute. repeat split; congruence.
Defined.

(** C7, as stated, fails: on the one-process state [starved], a request
    for process 5 with an empty demand returns [false] like any denial;
    no error is signalled. *)
Lemma unknown_process_counterexample :
  ¬ (0 ≤ 5 < Z.of_nat (numProcesses starved))%Z ∧
  call (requestResources 5 [] starved) = Returns false starved ∧
  call (requestResources 5 [] starved) ≠ Throws UnknownProcessError starved.
Proof.
  split; [unfold numProcesses, starved; simpl; lia |].
  split; [vm_compute; reflexivity |].
  vm_compute. discriminate.
Qed.

(** C7, amended — The methods never check [processId] and signal no
    error.  For a [processId] outside [[0, numProcesses)], on an object
    whose [completed] vector has one flag per process,
    [releaseResources] runs into an out-of-range subscript (undefined
    behaviour), and so does [requestResources] with a non-empty demand;
    [requestResources] with any demand either does so or returns [false]
    with the state unchanged.  No such call returns with a changed state. *)
Theorem unknown_process_is_unchecked pid req rel b :
  length (completed b) = numProcesses b →
  ¬ (0 ≤ pid < Z.of_nat (numProcesses b))%Z →
  call (releaseResources pid rel b) = Undefined ∧
  (req ≠ [] → call (requestResources pid req b) = Undefined) ∧
  (call (requestResources pid req b) = Undefined ∨
   call (requestResources pid req b) = Returns false b).
Proof.
  intros Hc Hout. split; [| split].
  - rewrite (releaseResources_out_of_range pid rel b Hc Hout). reflexivity.
  - intros Hne. rewrite (requestResources_out_of_range_nonempty pid req b Hout Hne).
    reflexivity.
  - destruct (requestResources_out_of_range pid req b Hc Hout) as [-> | ->];
      [left | right]; reflexivity.
Qed.

Lemma unknown_process_is_unchecked_witness :
  length (completed starved) = numProcesses starved ∧
  ¬ (0 ≤ 5 < Z.of_nat (numProcesses starved))%Z ∧
  call (releaseResources 5 [1]%Z starved) = Undefined ∧
  ([1]%Z ≠ [] → call (requestResources 5 [1]%Z starved) = Undefined) ∧
  (call (requestResources 5 [1]%Z starved) = Undefined ∨
   call (requestResources 5 [1]%Z starved) = Returns false starved).
Proof.
  assert (length (completed starved) = numProcesses starved) as Hc by reflexivity.
  assert (¬ (0 ≤ 5 < Z.of_nat (numProcesses starved))%Z) as Hout.
  { unfold numProcesses, starved. simpl. lia. }
  split; [exact Hc |]. split; [exact Hout |].
  exact (unknown_process_is_unchecked 5 [1]%Z [1]%Z starved Hc Hout).
Defined.

(** C8, as stated, fails: the first request of the scenario is granted and
    the [completed] flag of process 1 goes from false to true. *)
Lemma grant_flag_counterexample :
  requestResources 1 [1; 0; 2]%Z scenario_banker = Some (true, scenario_granted) ∧
  completed scenario_banker !! 1 = Some false ∧
  completed scenario_granted !! 1 = Some true.
Proof.
  split; [exact scenario_first_request |]. split; reflexivity.
Qed.

(** C8, amended — For every call [requestResources(processId, demand)]
    that returns [true], the [completed] flag of [processId] is true after
    the call and the flag of every other process is unchanged. *)
Theorem grant_sets_completed pid req b b' :
  requestResources pid req b = Some (true, b') →
  ∃ p, index pid = Some p ∧
    completed b' !! p = Some true ∧
    ∀ q, q ≠ p → completed b' !! q = completed b !! q.
Proof.
  intros H. destruct (requestResources_granted _ _ _ _ H)
    as (p & _ & Hp & Hlt & _ & _ & _ & _ & Hcomp & _).
  exists p. split; [exact Hp |]. rewrite Hcomp. split.
  - apply list_lookup_insert_eq. exact Hlt.
  - intros q Hq. apply list_lookup_insert_ne. congruence.
Qed.

Lemma grant_sets_completed_witness :
  requestResources 1 [1; 0; 2]%Z scenario_banker = Some (true, scenario_granted) ∧
  ∃ p, index 1 = Some p ∧
    completed scenario_granted !! p = Some true ∧
    ∀ q, q ≠ p → completed scenario_granted !! q = completed scenario_banker !! q.
Proof.
  split; [exact scenario_first_request |].
  exact (grant_sets_completed 1 [1; 0; 2]%Z scenario_banker scenario_granted
           scenario_first_request).
Defined.

(** C9 — The scenario of [runScenarios].  The constructor yields the state
    with the given tables; on it the request of process 1 for [1,0,2] is
    granted; on the resulting state the request of process 0 for [4,3,1]
    is denied, and after those two calls (the state is the same) the
    request of process 2 for [6,0,0] is denied. *)
Theorem scenario_requests :
  construct scenario_allocation scenario_max scenario_available = Some scenario_banker ∧
  requestResources 1 [1; 0; 2]%Z scenario_banker = Some (true, scenario_granted) ∧
  requestResources 0 [4; 3; 1]%Z scenario_granted = Some (false, scenario_granted) ∧
  requestResources 2 [6; 0; 0]%Z scenario_granted = Some (false, scenario_granted).
Proof. repeat split; vm_compute; reflexivity. Qed.

(** C10 — For every call [requestResources(processId, demand)] that
    returns [true], [available] after the call equals [available] before
    it, while [allocation[processId]] has grown by [demand], entry by
    entry, and no other row has changed. *)
Theorem grant_restores_available pid req b b' :
  requestResources pid req b = Some (true, b') →
  available b' = available b ∧
  ∃ p, index pid = Some p ∧
    (∀ r, cell (allocation b') p r = (cell (allocation b) p r + entry req r)%Z) ∧
    (∀ q r, q ≠ p → cell (allocation b') q r = cell (allocation b) q r).
Proof.
  intros H. destruct (requestResources_granted _ _ _ _ H)
    as (p & _ & Hp & _ & _ & _ & HAv & _ & _ & _ & HA & _).
  split; [exact HAv |]. exists p. split; [exact Hp |]. split.
  - intros r. rewrite HA, (upto_row_Some _ _ _ _ _ _ Hp), decide_True by reflexivity.
    rewrite upto_length. reflexivity.
  - intros q r Hq. rewrite HA, (upto_row_Some _ _ _ _ _ _ Hp), decide_False by exact Hq.
    lia.
Qed.

Lemma grant_restores_available_witness :
  requestResources 1 [1; 0; 2]%Z scenario_banker = Some (true, scenario_granted) ∧
  available scenario_granted = available scenario_banker ∧
  ∃ p, index 1 = Some p ∧
    (∀ r, cell (allocation scenario_granted) p r
          = (cell (allocation scenario_banker) p r + entry [1; 0; 2]%Z r)%Z) ∧
    (∀ q r, q ≠ p →
       cell (allocation scenario_granted) q r = cell (allocation scenario_banker) q r).
Proof.
  split; [exact scenario_first_request |].
  exact (grant_restores_available 1 [1; 0; 2]%Z scenario_banker scenario_granted
           scenario_first_request).
Defined.

(** * Further properties *)

Lemma cell_ext M N :
  length <$> M = length <$> N → (∀ p r, cell M p r = cell N p r) → M = N.
Proof.
  intros Hlen Hall. apply list_eq. intros p.
  destruct (M !! p) as [row|] eqn:Hrow.
  - destruct (lengths_row _ _ _ _ Hlen Hrow) as (row' & Hrow' & Hl).
    rewrite Hrow'. f_equal. apply entry_ext; [congruence |].
    intros j. rewrite <- (cell_row _ _ _ j Hrow), <- (cell_row _ _ _ j Hrow').
    apply Hall.
  - symmetry. apply lookup_ge_None. rewrite <- (lengths_length _ _ Hlen).
    apply lookup_ge_None. exact Hrow.
Qed.

(** X1 — A request, granted or denied, never changes [max] or
    [resources]: on the grant path [resources] is lowered by the demand
    and raised by it again. *)
Theorem request_keeps_max_and_resources pid req b ok b' :
  requestResources pid req b = Some (ok, b') →
  max b' = max b ∧ resources b' = resources b.
Proof.
  intros H. destruct ok.
  - destruct (requestResources_granted _ _ _ _ H)
      as (p & tb & _ & _ & _ & HM & _ & HR & _). auto.
  - rewrite (requestResources_false _ _ _ _ H). auto.
Qed.

Lemma request_keeps_max_and_resources_witness :
  requestResources 1 [1; 0; 2]%Z scenario_banker = Some (true, scenario_granted) ∧
  max scenario_granted = max scenario_banker ∧
  resources scenario_granted = resources scenario_banker.
Proof.
  split; [exact scenario_first_request |].
  exact (request_keeps_max_and_resources 1 [1; 0; 2]%Z scenario_banker true
           scenario_granted scenario_first_request).
Defined.

(** X2 — A granted request stays within the claim and within what is
    available: at every position of the demand, the new allocation of the
    process is at most its [max] entry and the demand is at most the
    [available] entry; if every allocation was at most its claim before
    the call, this still holds after it. *)
Theorem grant_within_claim pid req b b' :
  requestResources pid req b = Some (true, b') →
  ∃ p, index pid = Some p ∧
    (∀ r, r < length req →
       (cell (allocation b') p r ≤ cell (max b') p r)%Z ∧
       (entry req r ≤ entry (available b) r)%Z) ∧
    ((∀ q r, (cell (allocation b) q r ≤ cell (max b) q r)%Z) →
     ∀ q r, (cell (allocation b') q r ≤ cell (max b') q r)%Z).
Proof.
  intros H. destruct (requestResources_granted _ _ _ _ H)
    as (p & tb & Hp & _ & _ & HM & _ & _ & _ & _ & HA & Hadm & _).
  exists p. split; [exact Hp |]. split.
  - intros r Hr. destruct (Hadm r Hr) as [Hc Hav]. split; [| exact Hav].
    rewrite HM, HA, (upto_row_Some _ _ _ _ _ _ Hp), decide_True by reflexivity.
    unfold upto. rewrite decide_True by exact Hr. unfold Need in Hc. lia.
  - intros Hle q r. rewrite HM, HA, (upto_row_Some _ _ _ _ _ _ Hp).
    specialize (Hle q r). unfold upto.
    destruct (decide (q = p)) as [->|Hq]; [| lia].
    destruct (decide (r < length req)) as [Hr|Hr]; [| lia].
    destruct (Hadm r Hr) as [Hc _]. unfold Need in Hc. lia.
Qed.

Lemma grant_within_claim_witness :
  requestResources 1 [1; 0; 2]%Z scenario_banker = Some (true, scenario_granted) ∧
  ∃ p, index 1 = Some p ∧
    (∀ r, r < length [1; 0; 2]%Z →
       (cell (allocation scenario_granted) p r ≤ cell (max scenario_granted) p r)%Z ∧
       (entry [1; 0; 2]%Z r ≤ entry (available scenario_banker) r)%Z) ∧
    ((∀ q r, (cell (allocation scenario_banker) q r ≤ cell (max scenario_banker) q r)%Z) →
     ∀ q r, (cell (allocation scenario_granted) q r ≤ cell (max scenario_granted) q r)%Z).
Proof.
  split; [exact scenario_first_request |].
  exact (grant_within_claim 1 [1; 0; 2]%Z scenario_banker scenario_granted
           scenario_first_request).
Defined.

(** X3 — Granting a demand and then releasing the same amounts for the
    same process restores [allocation] and [max], but leaves [available]
    and [resources] higher by the amounts, and the [completed] flag of the
    process false. *)
Theorem grant_then_release pid v b b1 b2 :
  requestResources pid v b = Some (true, b1) →
  releaseResources pid v b1 = Some (tt, b2) →
  allocation b2 = allocation b ∧
  max b2 = max b ∧
  (∀ r, entry (available b2) r = (entry (available b) r + entry v r)%Z) ∧
  (∀ r, entry (resources b2) r = (entry (resources b) r + entry v r)%Z) ∧
  ∃ p, index pid = Some p ∧ completed b2 = <[p:=false]> (completed b).
Proof.
  intros Hreq Hrel.
  destruct (requestResources_granted _ _ _ _ Hreq)
    as (p & tb & Hp & _ & HlA & HM & HAv & HR & Hcomp & _ & HA & _).
  destruct (releaseResources_Some _ _ _ _ Hrel)
    as (p' & Hp' & _ & HlA' & _ & _ & HM' & Hcomp' & _ & HA' & HAv' & HR').
  assert (p' = p) as -> by congruence.
  split; [| split; [congruence | split; [| split]]].
  - apply cell_ext; [congruence |]. intros q r. rewrite HA', HA. lia.
  - intros r. rewrite HAv', HAv. reflexivity.
  - intros r. rewrite HR', HR. reflexivity.
  - exists p. split; [exact Hp |]. rewrite Hcomp', Hcomp.
    apply list_insert_insert_eq.
Qed.

Lemma grant_then_release_witness :
  requestResources 1 [1; 0; 2]%Z scenario_banker = Some (true, scenario_granted) ∧
  releaseResources 1 [1; 0; 2]%Z scenario_granted
    = Some (tt, mkBanker scenario_allocation scenario_max [4; 3; 4]%Z [8; 2; 7]%Z
                  [false; false; false; false; false]) ∧
  allocation (mkBanker scenario_allocation scenario_max [4; 3; 4]%Z [8; 2; 7]%Z
                [false; false; false; false; false]) = allocation scenario_banker.
Proof.
  assert (releaseResources 1 [1; 0; 2]%Z scenario_granted
          = Some (tt, mkBanker scenario_allocation scenario_max [4; 3; 4]%Z [8; 2; 7]%Z
                        [false; false; false; false; false])) as Hrel
    by (vm_compute; reflexivity).
  split; [exact scenario_first_request |]. split; [exact Hrel |].
  exact (proj1 (grant_then_release 1 [1; 0; 2]%Z scenario_banker scenario_granted _
                  scenario_first_request Hrel)).
Defined.

(** X4 — Along any sequence of request and release calls that return,
    [max] is never modified and no vector changes its size: the number of
    rows and the length of every row of [allocation], and the lengths of
    [available], [resources] and [completed], stay as they were. *)
Theorem run_keeps_max_and_shape ops r b g b' :
  run ops r b = Some (g, b') →
  max b' = max b ∧
  length <$> allocation b' = length <$> allocation b ∧
  length (available b') = length (available b) ∧
  length (resources b') = length (resources b) ∧
  length (completed b') = length (completed b).
Proof.
  revert b g. induction ops as [|[pid req|pid rel] ops IH]; intros b g H; simpl in H.
  - inversion H. auto.
  - apply bind_Some_inv in H. destruct H as ([ok b1] & Hcall & H).
    apply bind_Some_inv in H. destruct H as ([g2 b2] & Hrest & H).
    inversion H. subst b2. clear H.
    destruct (IH _ _ Hrest) as (HM & HlA & HlAv & HlR & HlC).
    rewrite HM, HlA, HlAv, HlR, HlC. destruct ok.
    + destruct (requestResources_granted _ _ _ _ Hcall)
        as (p & tb & _ & _ & HlA1 & HM1 & HAv1 & HR1 & HC1 & _).
      rewrite HM1, HlA1, HAv1, HR1, HC1, length_insert. auto.
    + rewrite (requestResources_false _ _ _ _ Hcall). auto.
  - apply bind_Some_inv in H. destruct H as ([[] b1] & Hcall & H).
    destruct (IH _ _ H) as (HM & HlA & HlAv & HlR & HlC).
    rewrite HM, HlA, HlAv, HlR, HlC.
    destruct (releaseResources_Some _ _ _ _ Hcall)
      as (p & _ & _ & HlA1 & HlAv1 & HlR1 & HM1 & HC1 & _).
    rewrite HM1, HlA1, HlAv1, HlR1, HC1, length_insert. auto.
Qed.

Lemma run_keeps_max_and_shape_witness :
  run [Request 1 [1; 0; 2]%Z; Request 0 [4; 3; 1]%Z; Release 1 [3; 0; 2]%Z]
      0 scenario_banker
    = Some (1%Z, mkBanker [[0; 1; 0]; [0; 0; 0]; [3; 0; 2]; [2; 1; 1]; [0; 0; 2]]%Z
                   scenario_max [6; 3; 4]%Z [10; 2; 7]%Z
                   [false; false; false; false; false]) ∧
  max (mkBanker [[0; 1; 0]; [0; 0; 0]; [3; 0; 2]; [2; 1; 1]; [0; 0; 2]]%Z
         scenario_max [6; 3; 4]%Z [10; 2; 7]%Z
         [false; false; false; false; false]) = max scenario_banker.
Proof.
  assert (run [Request 1 [1; 0; 2]%Z; Request 0 [4; 3; 1]%Z; Release 1 [3; 0; 2]%Z]
            0 scenario_banker
          = Some (1%Z, mkBanker [[0; 1; 0]; [0; 0; 0]; [3; 0; 2]; [2; 1; 1]; [0; 0; 2]]%Z
                         scenario_max [6; 3; 4]%Z [10; 2; 7]%Z
                         [false; false; false; false; false])) as Hrun
    by (vm_compute; reflexivity).
  split; [exact Hrun |].
  exact (proj1 (run_keeps_max_and_shape _ _ _ _ _ Hrun)).
Defined.





(** X6 — [isSafeState] is monotone in [available]: between two
    well-formed states with the same [allocation] and [max], the one with
    at least as much of every resource available is safe whenever the
    other is. *)
Theorem more_available_stays_safe b b' :
  well_formed b → well_formed b' →
  allocation b' = allocation b → max b' = max b →
  (∀ r, (entry (available b) r ≤ entry (available b') r)%Z) →
  isSafeState b = Some true →
  isSafeState b' = Some true.
Proof.
  intros Hwf Hwf' HA HM Hle Hsafe.
  apply (isSafeState_true_iff b Hwf) in Hsafe. destruct Hsafe as [order Hord].
  apply (isSafeState_true_iff b' Hwf'). exists order.
  apply (safe_ordering_transfer b b'); [| | | exact Hord].
  - unfold numProcesses. rewrite HA. reflexivity.
  - unfold numResources. rewrite HA. reflexivity.
  - intros _ k p r _ _. unfold Need, work_before. rewrite HA, HM.
    rewrite (held_same b b') by (intros; rewrite HA; reflexivity).
    specialize (Hle r). lia.
Qed.

Lemma more_available_stays_safe_witness :
  well_formed (mkBanker [[0]]%Z [[1]]%Z [1]%Z [0]%Z [false]) ∧
  well_formed (mkBanker [[0]]%Z [[1]]%Z [5]%Z [0]%Z [false]) ∧
  isSafeState (mkBanker [[0]]%Z [[1]]%Z [1]%Z [0]%Z [false]) = Some true ∧
  isSafeState (mkBanker [[0]]%Z [[1]]%Z [5]%Z [0]%Z [false]) = Some true.
Proof.
  assert (well_formed (mkBanker [[0]]%Z [[1]]%Z [1]%Z [0]%Z [false])) as Hwf
    by concrete_well_formed.
  assert (well_formed (mkBanker [[0]]%Z [[1]]%Z [5]%Z [0]%Z [false])) as Hwf'
    by concrete_well_formed.
  assert (isSafeState (mkBanker [[0]]%Z [[1]]%Z [1]%Z [0]%Z [false]) = Some true) as Hsafe
    by (vm_compute; reflexivity).
  split; [exact Hwf |]. split; [exact Hwf' |]. split; [exact Hsafe |].
  apply (more_available_stays_safe _ _ Hwf Hwf'); [reflexivity | reflexivity | | exact Hsafe].
  intros r. destruct r as [|r]; vm_compute; congruence.
Defined.

(** X7 — On a well-formed state in which [available] already covers the
    Need of every process, [isSafeState] returns true. *)
Theorem covered_needs_are_safe b :
  well_formed b →
  (∀ p, p < numProcesses b → executable b p (available b)) →
  isSafeState b = Some true.
Proof.
  intros Hwf Hcov. apply (isSafeState_true_iff b Hwf).
  exists (seq 0 (numProcesses b)). split; [reflexivity |].
  intros k p Hk r Hr. apply lookup_seq in Hk. destruct Hk as [-> Hlt].
  unfold work_before. destruct Hwf as (_ & Hnn & _).
  pose proof (held_nonneg b r (take k (seq 0 (numProcesses b))) Hnn).
  specialize (Hcov (0 + k) Hlt r Hr). lia.
Qed.

Lemma covered_needs_are_safe_witness :
  well_formed (mkBanker [[1]; [0]]%Z [[2]; [1]]%Z [1]%Z [1]%Z [false; false]) ∧
  isSafeState (mkBanker [[1]; [0]]%Z [[2]; [1]]%Z [1]%Z [1]%Z [false; false]) = Some true.
Proof.
  assert (well_formed (mkBanker [[1]; [0]]%Z [[2]; [1]]%Z [1]%Z [1]%Z [false; false]))
    as Hwf by concrete_well_formed.
  split; [exact Hwf |].
  apply (covered_needs_are_safe _ Hwf).
  intros p Hp r Hr. vm_compute in Hp. vm_compute in Hr.
  assert (r = 0) as -> by lia.
  destruct p as [|[|p]]; [| | lia]; vm_compute; congruence.
Defined.

(** X8 — On a well-formed state, [isSafeState] returns true only if some
    process can run with [available] as it is; when no process can, it
    returns false. *)
Theorem safe_needs_a_first_process b :
  well_formed b →
  (isSafeState b = Some true →
   ∃ p, p < numProcesses b ∧ executable b p (available b)) ∧
  ((∀ p, p < numProcesses b → ¬ executable b p (available b)) →
   isSafeState b = Some false).
Proof.
  intros Hwf.
  assert (isSafeState b = Some true →
          ∃ p, p < numProcesses b ∧ executable b p (available b)) as Hfirst.
  { intros Hsafe. apply (isSafeState_true_iff b Hwf) in Hsafe.
    destruct Hsafe as (order & Hperm & Hvalid).
    destruct Hwf as ((Hn & _) & _).
    destruct order as [|p order].
    { apply Permutation_length in Hperm. rewrite length_seq in Hperm.
      simpl in Hperm. lia. }
    exists p. split.
    - assert (p ∈ seq 0 (numProcesses b)) as Hin
        by (rewrite <- Hperm; apply list_elem_of_here).
      apply elem_of_seq in Hin. lia.
    - intros r Hr. specialize (Hvalid 0 p eq_refl r Hr).
      unfold work_before, held in Hvalid. simpl in Hvalid. lia. }
  split; [exact Hfirst |].
  intros Hnone.
  destruct (isSafeState_result b Hwf)
    as (_ & _ & _ & _ & _ & _ & _ & _ & _ & [[_ Hres]|(_ & _ & _ & Hres)]);
    [| exact Hres].
  destruct (Hfirst Hres) as (p & Hp & Hex). exfalso. exact (Hnone p Hp Hex).
Qed.

Lemma safe_needs_a_first_process_witness :
  well_formed starved ∧
  (∀ p, p < numProcesses starved → ¬ executable starved p (available starved)) ∧
  isSafeState starved = Some false.
Proof.
  assert (well_formed starved) as Hwf by concrete_well_formed.
  assert (∀ p, p < numProcesses starved → ¬ executable starved p (available starved))
    as Hnone.
  { intros p Hp Hex. vm_compute in Hp. assert (p = 0) as -> by lia.
    specialize (Hex 0). vm_compute in Hex. apply Hex; [lia | reflexivity]. }
  split; [exact Hwf |]. split; [exact Hnone |].
  exact (proj2 (safe_needs_a_first_process starved Hwf) Hnone).
Defined.

(** * The counter and the flags of the scan, on any state *)

Lemma marked_le flags : marked flags ≤ length flags.
Proof. induction flags as [|[] flags IH]; simpl; lia. Qed.

Lemma marked_replicate n : marked (replicate n false) = 0.
Proof. induction n as [|n IH]; simpl; [reflexivity | exact IH]. Qed.

Lemma marked_insert flags i :
  flags !! i = Some false → marked (<[i:=true]> flags) = S (marked flags).
Proof.
  revert i. induction flags as [|s flags IH]; intros i Hi; [discriminate |].
  destruct i as [|i]; simpl in *.
  - inversion Hi. reflexivity.
  - rewrite (IH i Hi). lia.
Qed.

Lemma marked_full flags : length flags ≤ marked flags → forallb id flags = true.
Proof.
  induction flags as [|s flags IH]; simpl; [reflexivity |].
  pose proof (marked_le flags) as Hle. destruct s; simpl; intros Hfull; [apply IH; lia | lia].
Qed.

Lemma scan_body_marked b need m i t t' :
  scan_body b need m i t = Some t' →
  count t = marked (safe t) →
  count t' = marked (safe t') ∧ length (safe t') = length (safe t).
Proof.
  unfold scan_body. intros H Hc.
  apply bind_Some_inv in H. destruct H as ([] & Hs & H); [inversion H; subst; auto |].
  apply bind_Some_inv in H. destruct H as (nrow & _ & H).
  apply bind_Some_inv in H. destruct H as ([] & _ & H); [| inversion H; subst; auto].
  apply bind_Some_inv in H. destruct H as (s' & Hset & H).
  apply bind_Some_inv in H. destruct H as (w' & _ & H).
  apply vset_Some in Hset. destruct Hset as [_ ->].
  inversion H. simpl. rewrite (marked_insert _ _ Hs), length_insert. auto.
Qed.

Lemma scan_pass_marked b need n m st st' :
  scan_pass b need n m st = Some st' →
  count st = marked (safe st) →
  count st' = marked (safe st') ∧ length (safe st') = length (safe st).
Proof.
  unfold scan_pass. intros Hrun Hc.
  apply (for_loop_inv (λ (_ : nat) t,
    count t = marked (safe t) ∧ length (safe t) = length (safe st)) _ _ _ _ Hrun).
  - simpl. auto.
  - intros i t t' _ [Hct Hlt] Hbody.
    destruct (scan_body_marked _ _ _ _ _ _ Hbody Hct) as [Hc' Hl']. split; congruence.
Qed.

Lemma do_while_marked fuel b need n m st st' :
  do_while fuel b need n m st = Exited st' →
  count st = marked (safe st) →
  count st' = marked (safe st') ∧ length (safe st') = length (safe st).
Proof.
  revert st. induction fuel as [|fuel IH]; intros st H Hc; [discriminate |].
  simpl in H. destruct (scan_pass b need n m st) as [st1|] eqn:Hpass; [| discriminate].
  destruct (scan_pass_marked _ _ _ _ _ _ Hpass Hc) as [Hc1 Hl1].
  destruct (negb (finished st1) && (count st1 <? n)).
  - destruct (IH st1 H Hc1) as [Hc' Hl']. split; congruence.
  - inversion H. subst. auto.
Qed.

(** X9 — In [isSafeState], whatever the state, [count] is the number of
    flags set in [safe] when the loop exits and never exceeds
    [numProcesses]; so once [count < numProcesses] has failed every flag
    is set, and the closing loop over [safe] never takes its
    [return false]. *)
Theorem closing_loop_never_fails fuel b need n m st :
  do_while fuel b need n m (scan_init b n) = Exited st →
  count st = marked (safe st) ∧
  count st ≤ n ∧
  ((count st <? n) = false → forallb id (safe st) = true).
Proof.
  intros H.
  destruct (do_while_marked _ _ _ _ _ _ _ H) as [Hc Hl].
  { simpl. rewrite marked_replicate. reflexivity. }
  simpl in Hl. rewrite length_replicate in Hl.
  pose proof (marked_le (safe st)) as Hle.
  split; [exact Hc |]. split; [lia |].
  intros Hge. apply Nat.ltb_ge in Hge. apply marked_full. lia.
Qed.

Lemma closing_loop_never_fails_witness :
  do_while 6 scenario_banker [[7; 4; 3]; [1; 2; 2]; [6; 0; 0]; [0; 1; 1]; [4; 3; 1]]%Z
      5 3 (scan_init scenario_banker 5)
    = Exited (mkScan [true; true; true; true; true] [10; 5; 7]%Z false 5) ∧
  forallb id [true; true; true; true; true] = true.
Proof.
  assert (do_while 6 scenario_banker
            [[7; 4; 3]; [1; 2; 2]; [6; 0; 0]; [0; 1; 1]; [4; 3; 1]]%Z
            5 3 (scan_init scenario_banker 5)
          = Exited (mkScan [true; true; true; true; true] [10; 5; 7]%Z false 5)) as Hrun
    by (vm_compute; reflexivity).
  split; [exact Hrun |].
  exact (proj2 (proj2 (closing_loop_never_fails _ _ _ _ _ _ Hrun)) eq_refl).
Defined.

(** * The number of passes *)

Lemma do_while_enough fuel b need n m st :
  0 < fuel → n - count st ≤ fuel → do_while fuel b need n m st ≠ OutOfFuel.
Proof.
  revert st. induction fuel as [|fuel IH]; intros st Hpos Hfuel; [lia |].
  simpl. destruct (scan_pass b need n m st) as [st'|] eqn:Hpass; [| discriminate].
  destruct (finished st') eqn:Hf; simpl; [discriminate |].
  destruct (Nat.ltb_spec (count st') n) as [Hlt|Hge]; [| discriminate].
  pose proof (scan_pass_count _ _ _ _ _ _ Hpass Hf).
  apply IH; lia.
Qed.

Lemma do_while_more_fuel fuel extra b need n m st :
  do_while fuel b need n m st ≠ OutOfFuel →
  do_while (fuel + extra) b need n m st = do_while fuel b need n m st.
Proof.
  revert st. induction fuel as [|fuel IH]; intros st H; [simpl in H; congruence |].
  simpl in *. destruct (scan_pass b need n m st) as [st'|]; [| reflexivity].
  destruct (negb (finished st') && (count st' <? n)); [| reflexivity].
  apply IH. exact H.
Qed.

(** X10 — The [do ... while] loop of [isSafeState] makes at most
    [numProcesses] passes over the processes: with at least one process,
    [numProcesses] passes always reach the exit, and allowing more passes
    changes nothing. *)
Theorem at_most_numProcesses_passes b need n m fuel :
  0 < n → n ≤ fuel →
  do_while n b need n m (scan_init b n) ≠ OutOfFuel ∧
  do_while fuel b need n m (scan_init b n) = do_while n b need n m (scan_init b n).
Proof.
  intros Hn Hfuel.
  assert (do_while n b need n m (scan_init b n) ≠ OutOfFuel) as Hok.
  { apply do_while_enough; simpl; lia. }
  split; [exact Hok |].
  replace fuel with (n + (fuel - n)) by lia.
  apply do_while_more_fuel. exact Hok.
Qed.

Lemma at_most_numProcesses_passes_witness :
  0 < 5 ∧ 5 ≤ 6 ∧
  do_while 6 scenario_banker [[7; 4; 3]; [1; 2; 2]; [6; 0; 0]; [0; 1; 1]; [4; 3; 1]]%Z
      5 3 (scan_init scenario_banker 5)
    = do_while 5 scenario_banker [[7; 4; 3]; [1; 2; 2]; [6; 0; 0]; [0; 1; 1]; [4; 3; 1]]%Z
        5 3 (scan_init scenario_banker 5).
Proof.
  assert (0 < 5) as H0 by lia. assert (5 ≤ 6) as H1 by lia.
  split; [exact H0 |]. split; [exact H1 |].
  exact (proj2 (at_most_numProcesses_passes scenario_banker
                  [[7; 4; 3]; [1; 2; 2]; [6; 0; 0]; [0; 1; 1]; [4; 3; 1]]%Z 5 3 6 H0 H1)).
Defined.

(** * What the safety check reads *)

Lemma for_loop_ext {St} n (body1 body2 : nat → St → option St) s :
  (∀ i t, i < n → body1 i t = body2 i t) →
  for_loop n body1 s = for_loop n body2 s.
Proof.
  induction n as [|n IH]; intros Hext; simpl; [reflexivity |].
  rewrite IH by (intros; apply Hext; lia).
  destruct (for_loop n body2 s) as [t|]; simpl; [apply Hext; lia | reflexivity].
Qed.

Lemma do_while_same_tables fuel b1 b2 need n m st :
  allocation b1 = allocation b2 →
  do_while fuel b1 need n m st = do_while fuel b2 need n m st.
Proof.
  intros HA. revert st. induction fuel as [|fuel IH]; intros st; simpl; [reflexivity |].
  assert (scan_pass b1 need n m st = scan_pass b2 need n m st) as ->.
  { unfold scan_pass. apply for_loop_ext. intros i t _.
    unfold scan_body.
    assert (for_loop m (work_cell b1 i) (work t) = for_loop m (work_cell b2 i) (work t)) as ->.
    { apply for_loop_ext. intros j w _. unfold work_cell. rewrite HA. reflexivity. }
    reflexivity. }
  destruct (scan_pass b2 need n m st) as [st'|]; [| reflexivity].
  destruct (negb (finished st') && (count st' <? n)); [apply IH | reflexivity].
Qed.

(** The verdict depends on [allocation], [max] and [available] only. *)
Lemma isSafeState_same_tables b1 b2 :
  allocation b1 = allocation b2 → max b1 = max b2 → available b1 = available b2 →
  isSafeState b1 = isSafeState b2.
Proof.
  intros HA HM HAv. unfold isSafeState. rewrite HA.
  destruct (allocation b2 !! 0) as [row0|]; [| reflexivity].
  cbn [mbind option_bind].
  assert (need_matrix b1 (length (allocation b2)) (length row0)
          = need_matrix b2 (length (allocation b2)) (length row0)) as ->.
  { unfold need_matrix. apply for_loop_ext. intros i need _.
    apply for_loop_ext. intros j need' _. unfold need_cell. rewrite HA, HM. reflexivity. }
  destruct (need_matrix b2 (length (allocation b2)) (length row0)) as [need|];
    [| reflexivity].
  cbn [mbind option_bind].
  assert (scan_init b1 (length (allocation b2)) = scan_init b2 (length (allocation b2))) as ->.
  { unfold scan_init. rewrite HAv. reflexivity. }
  rewrite (do_while_same_tables _ b1 b2) by exact HA. reflexivity.
Qed.

(** X11 — A request with an empty demand is a safety query: whenever it
    returns, its answer is the answer of [isSafeState] on the current
    state, and [allocation] and [available] are left as they were. *)
Theorem empty_demand_is_a_safety_query pid b ok b' :
  requestResources pid [] b = Some (ok, b') →
  isSafeState b = Some ok ∧
  allocation b' = allocation b ∧ available b' = available b.
Proof.
  intros H.
  assert (isSafeState b = Some ok) as Hsafe.
  { unfold requestResources in H. simpl in H.
    apply bind_Some_inv in H. destruct H as (tb & Hcons & H).
    destruct (construct_Some _ _ _ _ Hcons) as (HA & HM & HAv).
    apply bind_Some_inv in H. destruct H as (s & Hs & H).
    rewrite <- (isSafeState_same_tables tb b HA HM HAv), Hs.
    destruct s.
    - apply bind_Some_inv in H. destruct H as (p & _ & H).
      apply bind_Some_inv in H. destruct H as (c' & _ & H).
      inversion H. reflexivity.
    - inversion H. reflexivity. }
  split; [exact Hsafe |]. destruct ok.
  - destruct (requestResources_granted _ _ _ _ H)
      as (p & tb & _ & _ & HlA & _ & HAv & _ & _ & _ & HA & _).
    split; [| exact HAv]. apply cell_ext; [exact HlA |].
    intros q r. rewrite HA. unfold upto_row, upto. simpl.
    repeat case_decide; lia.
  - rewrite (requestResources_false _ _ _ _ H). auto.
Qed.

Lemma empty_demand_is_a_safety_query_witness :
  requestResources 0 [] starved = Some (false, starved) ∧
  isSafeState starved = Some false.
Proof.
  assert (requestResources 0 [] starved = Some (false, starved)) as Hcall
    by (vm_compute; reflexivity).
  split; [exact Hcall |].
  exact (proj1 (empty_demand_is_a_safety_query 0 starved false starved Hcall)).
Defined.

(** * The constructor *)

Lemma column_app M r l1 l2 : column M r (l1 ++ l2) = (column M r l1 + column M r l2)%Z.
Proof.
  unfold column. induction l1 as [|p l1 IH]; simpl; [reflexivity |].
  rewrite IH. lia.
Qed.

Lemma column_S M r i : column M r (seq 0 (S i)) = (column M r (seq 0 i) + cell M i r)%Z.
Proof. rewrite seq_S, column_app. unfold column at 2. simpl. lia. Qed.

Lemma held_column b r ps : held b r ps = column (allocation b) r ps.
Proof. reflexivity. Qed.

Lemma add_cell_Some alloc i j acc acc' :
  add_cell alloc i j acc = Some acc' →
  j < length acc ∧
  acc' = <[j := (entry acc j + cell alloc i j)%Z]> acc ∧
  (INT_MIN ≤ entry acc j + cell alloc i j ≤ INT_MAX)%Z.
Proof.
  unfold add_cell. intros H. simplify_option_eq. unpack. read_entries.
  subst. split; [assumption |]. split; [reflexivity | lia].
Qed.

(** X12 — Whenever the constructor returns, the object holds the three
    tables it was given, one [completed] flag per process, all false, and
    a [resources] vector with one entry per column of the first
    allocation row, each the sum of that column of [allocation] over all
    processes ([available] is not part of it). *)
Theorem construct_result alloc mx avail b :
  construct alloc mx avail = Some b →
  allocation b = alloc ∧ max b = mx ∧ available b = avail ∧
  completed b = replicate (numProcesses b) false ∧
  length (resources b) = numResources b ∧
  ∀ r, r < numResources b →
    entry (resources b) r = column alloc r (seq 0 (numProcesses b)).
Proof.
  unfold construct. intros H.
  apply bind_Some_inv in H. destruct H as (row0 & Hrow0 & H).
  apply bind_Some_inv in H. destruct H as (res & Hloop & H).
  inversion H. subst b. clear H. unfold numProcesses, numResources. simpl.
  rewrite Hrow0. simpl.
  repeat (split; [reflexivity |]).
  apply (for_loop_inv (λ i res,
    length res = length row0 ∧
    ∀ r, r < length row0 → entry res r = column alloc r (seq 0 i)) _ _ _ _ Hloop).
  - split; [apply length_replicate |]. intros r Hr.
    unfold entry. rewrite lookup_replicate_2 by exact Hr. reflexivity.
  - clear Hloop res. intros i t t' Hi [Hlt Ht] Hrow.
    pose (Q := λ (j : nat) (u : list Z),
            length u = length row0 ∧
            ∀ r, entry u r =
              (entry t r + if decide (r < j)%nat then cell alloc i r else 0)%Z).
    assert (Q (length row0) t') as [Hlt' Ht'].
    { apply (for_loop_inv Q _ _ _ _ Hrow); unfold Q.
      - split; [exact Hlt |]. intros r. rewrite decide_False by lia. lia.
      - intros j u u' Hj [Hlu Hu] Hcell.
        apply add_cell_Some in Hcell. destruct Hcell as (Hju & -> & _).
        split; [rewrite length_insert; exact Hlu |].
        intros r. rewrite entry_insert by exact Hju. rewrite !Hu.
        repeat case_decide; subst; lia. }
    split; [exact Hlt' |]. intros r Hr.
    rewrite Ht', decide_True, column_S, Ht by exact Hr. reflexivity.
Qed.

Lemma construct_result_witness :
  construct scenario_allocation scenario_max scenario_available = Some scenario_banker ∧
  entry (resources scenario_banker) 0
    = column scenario_allocation 0 (seq 0 (numProcesses scenario_banker)).
Proof.
  assert (construct scenario_allocation scenario_max scenario_available
          = Some scenario_banker) as Hc by (vm_compute; reflexivity).
  split; [exact Hc |].
  apply (construct_result _ _ _ _ Hc). vm_compute. lia.
Defined.

(** Both loops of the constructor run to their ends when every row has
    the length of the first one and the running column sums fit. *)
Lemma construct_total alloc mx avail row0 :
  alloc !! 0 = Some row0 →
  Forall (λ row, length row = length row0) alloc →
  (∀ i r, i < length alloc → r < length row0 →
     (INT_MIN ≤ column alloc r (seq 0 (S i)) ≤ INT_MAX)%Z) →
  ∃ b, construct alloc mx avail = Some b.
Proof.
  intros Hrow0 Hrows Hfits. unfold construct. rewrite Hrow0. simpl.
  destruct (for_loop_total (λ i res,
    length res = length row0 ∧
    ∀ r, r < length row0 → entry res r = column alloc r (seq 0 i))
    (length alloc)
    (λ i res, for_loop (length row0) (add_cell alloc i) res)
    (replicate (length row0) 0%Z)) as (res & Hres & _).
  - split; [apply length_replicate |]. intros r Hr.
    unfold entry. rewrite lookup_replicate_2 by exact Hr. reflexivity.
  - intros i t Hi [Hlt Ht].
    destruct (table_lookup _ _ i Hrows Hi) as (row & Hrow & Hlrow).
    destruct (for_loop_total (λ j u,
      length u = length row0 ∧
      ∀ r, entry u r = (entry t r + if decide (r < j)%nat then cell alloc i r else 0)%Z)
      (length row0) (add_cell alloc i) t) as (t' & Ht' & Hlt' & Hent).
    + split; [exact Hlt |]. intros r. rewrite decide_False by lia. lia.
    + intros j u Hj [Hlu Hu].
      exists (<[j := (entry u j + cell alloc i j)%Z]> u). split.
      * unfold add_cell. rewrite Hrow. simpl.
        rewrite (lookup_entry row j) by lia. simpl.
        rewrite (lookup_entry u j) by lia. simpl.
        rewrite <- (cell_row _ _ _ _ Hrow).
        unfold int_add. rewrite checked_fits.
        -- simpl. apply vset_lt. lia.
        -- rewrite Hu, decide_False, Ht by lia.
           specialize (Hfits i j Hi Hj). rewrite column_S in Hfits. lia.
      * split; [rewrite length_insert; exact Hlu |].
        intros r. rewrite entry_insert by lia. rewrite !Hu.
        repeat case_decide; subst; lia.
    + exists t'. split; [exact Ht' |]. split; [exact Hlt' |].
      intros r Hr. rewrite Hent, decide_True, column_S, Ht by exact Hr. reflexivity.
  - rewrite Hres. simpl. eauto.
Qed.

(** X13 — The constructor returns on every non-empty allocation table
    whose rows all have the length of the first one and whose running
    column sums fit an [int]; it reads neither [max] nor [available], so
    nothing is required of them. *)
Theorem construct_returns alloc mx avail row0 :
  alloc !! 0 = Some row0 →
  Forall (λ row, length row = length row0) alloc →
  (∀ i r, i < length alloc → r < length row0 →
     (INT_MIN ≤ column alloc r (seq 0 (S i)) ≤ INT_MAX)%Z) →
  ∃ b, construct alloc mx avail = Some b.
Proof.
  intros Hrow0 Hrows Hfits.
  exact (construct_total alloc mx avail row0 Hrow0 Hrows Hfits).
Qed.

Lemma construct_returns_witness :
  [[0]; [1]; [0]]%Z !! 0 = Some [0]%Z ∧
  ∃ b, construct [[0]; [1]; [0]]%Z [[1]; [2]; [4]]%Z [1]%Z = Some b.
Proof.
  split; [reflexivity |].
  apply (construct_returns [[0]; [1]; [0]]%Z [[1]; [2]; [4]]%Z [1]%Z [0]%Z).
  - reflexivity.
  - repeat constructor.
  - intros i r Hi Hr. simpl in Hi, Hr. assert (r = 0) as -> by lia.
    destruct i as [|[|[|i]]]; [| | | lia]; vm_compute; split; congruence.
Defined.





(** * The decision of [requestResources] *)

Lemma entry_imap (f : nat → Z → Z) v r :
  entry (imap f v) r = if decide (r < length v) then f r (entry v r) else 0%Z.
Proof.
  unfold entry. rewrite list_lookup_imap.
  destruct (decide (r < length v)) as [Hr|Hr].
  - rewrite (lookup_entry v r Hr). simpl. unfold entry.
    rewrite (lookup_entry v r Hr). reflexivity.
  - rewrite lookup_ge_None_2 by lia. reflexivity.
Qed.

Lemma cell_tentative_allocation b p req q r :
  cell (tentative_allocation b p req) q r =
    if decide (q = p ∧ r < length (default [] (allocation b !! p)))
    then (cell (allocation b) q r + entry req r)%Z
    else cell (allocation b) q r.
Proof.
  unfold tentative_allocation, cell.
  destruct (decide (q = p)) as [->|Hq].
  - rewrite list_lookup_alter_eq.
    destruct (allocation b !! p) as [row|] eqn:Hrow; simpl.
    + fold (entry (imap (λ j a, (a + entry req j)%Z) row) r). rewrite entry_imap.
      fold (entry row r).
      destruct (decide (r < length row)), (decide (p = p ∧ r < length row));
        try reflexivity; try tauto.
      rewrite entry_ge by lia. reflexivity.
    + rewrite decide_False by (simpl; lia). reflexivity.
  - rewrite list_lookup_alter_ne by congruence.
    rewrite decide_False by tauto. reflexivity.
Qed.

Lemma lengths_tentative_allocation b p req :
  length <$> tentative_allocation b p req = length <$> allocation b.
Proof.
  unfold tentative_allocation. apply list_eq. intros q.
  rewrite !list_lookup_fmap.
  destruct (decide (q = p)) as [->|Hq].
  - rewrite list_lookup_alter_eq. destruct (allocation b !! p); simpl; [| reflexivity].
    rewrite length_imap. reflexivity.
  - rewrite list_lookup_alter_ne by congruence. reflexivity.
Qed.

(** The admission loop returns on a rectangular state, and takes its
    [return false] exactly when some position exceeds the remaining claim
    or what is available. *)
Lemma exceeds_spec b pid req p i cnt :
  rectangular b → representable b →
  index pid = Some p → p < numProcesses b →
  i + cnt ≤ length req → i + cnt ≤ numResources b →
  ∃ c, exceeds b pid req i cnt = Some c ∧
    (c = false ↔
     ∀ r, i ≤ r < i + cnt →
       (entry req r ≤ Need b p r)%Z ∧ (entry req r ≤ entry (available b) r)%Z).
Proof.
  intros Hrect Hrep Hp Hpn. revert i.
  induction cnt as [|cnt IH]; intros i Hreq Hm; simpl.
  - exists false. split; [reflexivity |]. split; [intros _ r Hr; lia | reflexivity].
  - destruct (max_lookup b p i Hrect Hpn) as (mrow & Hmrow & Hmx); [lia |].
    destruct (allocation_lookup b p i Hrect Hpn) as (arow & Harow & Ha); [lia |].
    destruct Hrep as (Hneed & _). specialize (Hneed p i Hpn). unfold Need in Hneed.
    rewrite (lookup_entry req i) by lia. simpl. rewrite Hp. simpl.
    rewrite Hmrow. simpl. rewrite Hmx. simpl. rewrite Harow. simpl. rewrite Ha. simpl.
    unfold int_sub. rewrite checked_fits by (apply Hneed; lia). simpl.
    fold (Need b p i).
    destruct (Z.gtb_spec (entry req i) (Need b p i)) as [Hgt|Hle].
    { exists true. split; [reflexivity |]. split; [discriminate |].
      intros Hall. destruct (Hall i); lia. }
    destruct Hrect as (_ & _ & _ & _ & Hla).
    rewrite (lookup_entry (available b) i) by lia. simpl.
    destruct (Z.gtb_spec (entry req i) (entry (available b) i)) as [Hgt|Hle2].
    { exists true. split; [reflexivity |]. split; [discriminate |].
      intros Hall. destruct (Hall i); lia. }
    destruct (IH (S i)) as (c & Hc & Hiff); [lia | lia |].
    exists c. split; [exact Hc |]. rewrite Hiff. split.
    + intros Hall r Hr. destruct (decide (r = i)) as [->|Hne]; [auto |]. apply Hall. lia.
    + intros Hall r Hr. apply Hall. lia.
Qed.

Lemma available_le_total b r :
  nonneg_allocation b → (entry (available b) r ≤ total b r)%Z.
Proof.
  intros Hnn. unfold total.
  pose proof (held_nonneg b r (seq 0 (numProcesses b)) Hnn). lia.
Qed.

(** The tentative loop runs to its end on an admitted demand. *)
Lemma tentative_returns b pid req p :
  well_formed b →
  index pid = Some p → p < numProcesses b →
  Forall (λ d, (0 ≤ d)%Z) req →
  length req ≤ numResources b →
  length req ≤ length (resources b) →
  (∀ r, r < length req →
     (INT_MIN ≤ entry (resources b) r - entry req r ≤ INT_MAX)%Z) →
  (∀ r, r < length req →
     (entry req r ≤ Need b p r)%Z ∧ (entry req r ≤ entry (available b) r)%Z) →
  ∃ tRs,
    for_loop (length req) (tentative pid req)
      (allocation b, available b, resources b)
      = Some (tentative_allocation b p req, tentative_available b req, tRs) ∧
    length tRs = length (resources b) ∧
    ∀ j, entry tRs j = (entry (resources b) j - entry req j)%Z.
Proof.
  intros (Hrect & Hnn & Hneed & Havail & Hmax) Hp Hpn Hreq Hlen Hlres Hres Hadm.
  pose proof Hrect as (_ & Hrows & _ & _ & Hla).
  destruct (table_lookup _ _ p Hrows Hpn) as (row & Hrow & Hlrow).
  destruct (for_loop_total (λ i t,
    length <$> t.1.1 = length <$> allocation b ∧
    length t.1.2 = length (available b) ∧
    length t.2 = length (resources b) ∧
    ∀ j, i ≤ j →
      cell t.1.1 p j = cell (allocation b) p j ∧
      entry t.1.2 j = entry (available b) j ∧
      entry t.2 j = entry (resources b) j)
    (length req) (tentative pid req)
    (allocation b, available b, resources b)) as ([[tA tAv] tRs] & Hrun & _).
  - simpl. auto 10.
  - intros i [[uA uAv] uRs] Hi (HlA & HlAv & HlRs & Hrest). simpl in *.
    destruct (lengths_row _ uA _ _ (eq_sym HlA) Hrow) as (urow & Hurow & Hul).
    destruct (Hrest i (Nat.le_refl i)) as (HcA & HcAv & HcRs).
    destruct (Hadm i Hi) as [Hclaim Hav]. unfold Need in Hclaim.
    pose proof (Forall_entry_nonneg req i Hreq) as Hpos.
    pose proof (Hnn p i) as Hnn_pi. pose proof (Hmax p i) as Hmax_pi.
    pose proof (available_le_total b i Hnn) as Hav_tot.
    destruct (Havail i) as [_ Htot]; [lia |].
    specialize (Hres i Hi).
    unfold tentative. rewrite Hp. simpl. rewrite Hurow. simpl.
    rewrite (lookup_entry urow i) by lia. simpl.
    rewrite (lookup_entry req i) by lia. simpl.
    rewrite <- (cell_row _ _ _ _ Hurow), HcA.
    unfold int_add. rewrite checked_fits by (unfold INT_MIN; lia). simpl.
    rewrite vset_lt by lia. simpl.
    rewrite vset_lt by (apply lookup_lt_Some in Hurow; exact Hurow). simpl.
    rewrite (lookup_entry uAv i) by lia. simpl. rewrite HcAv.
    unfold int_sub. rewrite checked_fits by (unfold INT_MIN; lia). simpl.
    rewrite vset_lt by lia. simpl.
    rewrite (lookup_entry uRs i) by lia. simpl. rewrite HcRs.
    rewrite checked_fits by exact Hres. simpl.
    rewrite vset_lt by lia. simpl.
    eexists. split; [reflexivity |]. simpl.
    split; [rewrite <- HlA; apply lengths_insert; exact Hurow |].
    split; [rewrite length_insert; exact HlAv |].
    split; [rewrite length_insert; exact HlRs |].
    intros j Hj. destruct (Hrest j) as (HjA & HjAv & HjRs); [lia |].
    rewrite cell_insert by (exact Hurow || lia).
    rewrite !entry_insert by lia.
    rewrite decide_False by lia. rewrite !(decide_False (P := j = i)) by lia.
    auto.
  - destruct (tentative_loop _ _ _ _ _ _ _ _ _ Hrun)
      as (HlA & HlAv & HlRs & _ & HA & HAv & HRs).
    assert (tA = tentative_allocation b p req) as ->.
    { apply cell_ext; [rewrite lengths_tentative_allocation; exact HlA |].
      intros q r. rewrite HA, cell_tentative_allocation, Hrow. simpl.
      rewrite (upto_row_Some _ _ _ _ _ _ Hp), upto_length.
      destruct (decide (q = p)) as [->|Hq].
      - destruct (decide (r < length row)) as [Hr|Hr].
        + rewrite decide_True by auto. reflexivity.
        + rewrite decide_False by tauto. rewrite (entry_ge req) by lia. lia.
      - rewrite decide_False by tauto. lia. }
    assert (tAv = tentative_available b req) as ->.
    { apply entry_ext; [unfold tentative_available; rewrite length_imap; exact HlAv |].
      intros r. unfold tentative_available. rewrite HAv, entry_imap, upto_length.
      destruct (decide (r < length (available b))) as [Hr|Hr]; [reflexivity |].
      rewrite (entry_ge (available b)), (entry_ge req) by lia. reflexivity. }
    exists tRs. split; [exact Hrun |]. split; [exact HlRs |].
    intros j. rewrite HRs, upto_length. reflexivity.
Qed.

(** The hypothetical state of an admitted demand is well-formed and has
    the total of the current state. *)
Lemma hypothetical_well_formed b pid req p :
  well_formed b →
  index pid = Some p → p < numProcesses b →
  Forall (λ d, (0 ≤ d)%Z) req →
  length req ≤ numResources b →
  (∀ r, r < length req →
     (entry req r ≤ Need b p r)%Z ∧ (entry req r ≤ entry (available b) r)%Z) →
  well_formed (hypothetical b p req) ∧
  ((∀ r, (0 ≤ entry (available b) r)%Z) →
   ∀ r, (0 ≤ entry (available (hypothetical b p req)) r)%Z) ∧
  (∀ r, r < numResources b → total (hypothetical b p req) r = total b r).
Proof.
  intros (Hrect & Hnn & Hneed & Havail & Hmax) Hp Hpn Hreq Hlen Hadm.
  pose proof Hrect as (_ & Hrows & _ & _ & Hla).
  destruct (table_lookup _ _ p Hrows Hpn) as (row & Hrow & Hlrow).
  destruct (same_shape_rectangular b (hypothetical b p req)) as (Hrect' & Hn' & Hm').
  { simpl. apply lengths_tentative_allocation. }
  { reflexivity. }
  { simpl. unfold tentative_available. apply length_imap. }
  { exact Hrect. }
  assert (∀ q r, cell (allocation (hypothetical b p req)) q r =
            (cell (allocation b) q r +
             if decide (q = p)
             then (if decide (r < numResources b)%nat then entry req r else 0)
             else 0)%Z) as Hcell.
  { intros q r. simpl. rewrite cell_tentative_allocation, Hrow. simpl. rewrite Hlrow.
    destruct (decide (q = p)) as [->|Hq].
    - destruct (decide (r < numResources b)) as [Hr|Hr].
      + rewrite decide_True by auto. reflexivity.
      + rewrite decide_False by tauto. lia.
    - rewrite decide_False by tauto. lia. }
  assert (∀ r, entry (available (hypothetical b p req)) r =
            if decide (r < numResources b)
            then (entry (available b) r - entry req r)%Z else 0%Z) as Hav.
  { intros r. simpl. unfold tentative_available. rewrite entry_imap, Hla. reflexivity. }
  assert (∀ r, r < numResources b → total (hypothetical b p req) r = total b r) as Htot.
  { intros r Hr. unfold total. rewrite Hn'.
    rewrite (held_shift b (hypothetical b p req) r _ p (entry req r)).
    - rewrite decide_True by (apply elem_of_seq; lia).
      rewrite Hav, decide_True by exact Hr. lia.
    - apply NoDup_seq.
    - intros q. rewrite Hcell. rewrite (decide_True (P := r < numResources b)) by exact Hr.
      reflexivity. }
  assert (∀ r, (0 ≤ entry req r)%Z) as Hpos
    by (intros r; apply Forall_entry_nonneg; exact Hreq).
  split; [| split; [| exact Htot]].
  - split; [exact Hrect' |]. split; [| split; [| split]].
    + intros q r. rewrite Hcell. pose proof (Hnn q r). pose proof (Hpos r).
      repeat case_decide; lia.
    + intros q r Hq Hr. rewrite Hn' in Hq. rewrite Hm' in Hr.
      specialize (Hneed q r Hq Hr). unfold Need in *.
      change (max (hypothetical b p req)) with (max b). rewrite Hcell.
      pose proof (Hpos r).
      destruct (decide (q = p)) as [->|Hq']; [| lia].
      rewrite decide_True by exact Hr.
      destruct (decide (r < length req)) as [Hlt|Hge].
      * destruct (Hadm r Hlt) as [Hc _]. unfold Need in Hc. unfold INT_MIN. lia.
      * rewrite (entry_ge req) by lia. lia.
    + intros r Hr. rewrite Hm' in Hr. rewrite (Htot r Hr).
      split; [| apply Havail; exact Hr].
      rewrite Hav, decide_True by exact Hr.
      destruct (decide (r < length req)) as [Hlt|Hge].
      * destruct (Hadm r Hlt) as [_ Hc]. unfold INT_MIN. lia.
      * rewrite (entry_ge req) by lia. destruct (Havail r Hr). lia.
    + intros q r. apply Hmax.
  - intros Hav0 r. rewrite Hav. specialize (Hav0 r).
    destruct (decide (r < numResources b)) as [Hr|Hr]; [| lia].
    destruct (decide (r < length req)) as [Hlt|Hge].
    + destruct (Hadm r Hlt) as [_ Hc]. lia.
    + rewrite (entry_ge req) by lia. lia.
Qed.

(** The constructor returns on the tables of a well-formed state whose
    [available] entries are not negative. *)
Lemma construct_well_formed t mx avail :
  well_formed t →
  (∀ r, (0 ≤ entry (available t) r)%Z) →
  ∃ tb, construct (allocation t) mx avail = Some tb.
Proof.
  intros (Hrect & Hnn & _ & Havail & _) Hpos.
  destruct (rectangular_row0 t Hrect) as (row0 & Hrow0 & Hl0).
  destruct Hrect as (_ & Hrows & _).
  apply (construct_total _ _ _ row0 Hrow0).
  - rewrite Hl0. exact Hrows.
  - intros i r Hi Hr. rewrite Hl0 in Hr. rewrite <- held_column.
    pose proof (held_nonneg t r (seq 0 (S i)) Hnn).
    assert (held t r (seq 0 (S i)) ≤ held t r (seq 0 (numProcesses t)))%Z as Hle.
    { apply held_subset; [exact Hnn | apply NoDup_seq |].
      intros q Hq. apply elem_of_seq in Hq. apply elem_of_seq.
      unfold numProcesses. lia. }
    destruct (Havail r Hr) as [_ Htot]. unfold total in Htot.
    specialize (Hpos r). unfold INT_MIN. lia.
Qed.

(** Giving back what the tentative loop took restores both vectors. *)
Lemma give_back_returns req avail res tAv tRs :
  length req ≤ length avail → length req ≤ length res →
  length tAv = length avail → length tRs = length res →
  (∀ j, entry tAv j = (entry avail j - upto (length req) req j)%Z) →
  (∀ j, entry tRs j = (entry res j - upto (length req) req j)%Z) →
  (∀ j, j < length req →
     (INT_MIN ≤ entry avail j ≤ INT_MAX)%Z ∧ (INT_MIN ≤ entry res j ≤ INT_MAX)%Z) →
  for_loop (length req) (give_back req) (tAv, tRs) = Some (avail, res).
Proof.
  intros Hla Hlr HlAv HlRs HAv HRs Hfits.
  destruct (for_loop_total (λ i t,
    length t.1 = length avail ∧ length t.2 = length res ∧
    ∀ j, i ≤ j → entry t.1 j = entry tAv j ∧ entry t.2 j = entry tRs j)
    (length req) (give_back req) (tAv, tRs)) as ([av' rs'] & Hrun & _).
  - simpl. auto.
  - intros i [uAv uRs] Hi (HlA & HlR & Hrest). simpl in *.
    destruct (Hrest i (Nat.le_refl i)) as [HcA HcR].
    destruct (Hfits i Hi) as [HfA HfR].
    unfold give_back.
    rewrite (lookup_entry uAv i) by lia. simpl.
    rewrite (lookup_entry req i) by lia. simpl.
    rewrite HcA, HAv. unfold upto at 1. rewrite decide_True by exact Hi.
    unfold int_add. rewrite checked_fits by lia. simpl.
    rewrite vset_lt by lia. simpl.
    rewrite (lookup_entry uRs i) by lia. simpl.
    rewrite HcR, HRs. unfold upto at 1. rewrite decide_True by exact Hi.
    rewrite checked_fits by lia. simpl.
    rewrite vset_lt by lia. simpl.
    eexists. split; [reflexivity |]. simpl.
    split; [rewrite length_insert; exact HlA |].
    split; [rewrite length_insert; exact HlR |].
    intros j Hj. destruct (Hrest j) as [HjA HjR]; [lia |].
    rewrite !entry_insert by lia. rewrite !decide_False by lia. auto.
  - rewrite Hrun. destruct (give_back_loop _ _ _ _ _ _ Hrun) as (Hl1 & Hl2 & H1 & H2).
    f_equal. f_equal.
    + apply entry_ext; [congruence |]. intros j. rewrite H1, HAv. lia.
    + apply entry_ext; [congruence |]. intros j. rewrite H2, HRs. lia.
Qed.

(** X15 — The decision of [requestResources].  On a well-formed state
    with non-negative [available], for a process in range and a
    non-negative demand no longer than the number of resources (with
    [resources] entries that can be lowered by the demand within an
    [int]), the call always returns: it returns true, leaving the state
    [granted] (the row of the process raised by the demand, its
    [completed] flag set, everything else as before), exactly when every
    entry of the demand is at most the remaining claim and at most what is
    available and the hypothetical state has a safe ordering; otherwise
    it returns false and leaves the state unchanged. *)
Theorem request_decision b pid req p :
  well_formed b →
  (∀ r, (0 ≤ entry (available b) r)%Z) →
  index pid = Some p → p < numProcesses b →
  length (completed b) = numProcesses b →
  Forall (λ d, (0 ≤ d)%Z) req →
  length req ≤ numResources b →
  length req ≤ length (resources b) →
  (∀ r, r < length req →
     (INT_MIN + entry req r ≤ entry (resources b) r ≤ INT_MAX)%Z) →
  (requestResources pid req b = Some (true, granted b p req) ∨
   requestResources pid req b = Some (false, b)) ∧
  (requestResources pid req b = Some (true, granted b p req) ↔
   (∀ r, r < length req →
      (entry req r ≤ Need b p r)%Z ∧ (entry req r ≤ entry (available b) r)%Z) ∧
   ∃ order, safe_ordering (hypothetical b p req) order).
Proof.
  intros Hwf Hav0 Hp Hpn Hcomp Hreq Hlen Hlres Hres.
  pose proof Hwf as (Hrect & Hnn & Hrep).
  destruct (exceeds_spec b pid req p 0 (length req) Hrect Hrep Hp Hpn) as (c & Hc & Hiff);
    [lia | lia |].
  assert ((c = false ↔
           ∀ r, r < length req →
             (entry req r ≤ Need b p r)%Z ∧ (entry req r ≤ entry (available b) r)%Z))
    as Hadm_iff.
  { rewrite Hiff. split; intros H r Hr; apply H; lia. }
  clear Hiff.
  unfold requestResources. rewrite Hc. cbn [mbind option_bind].
  destruct c.
  { split; [right; reflexivity |]. split; [discriminate |].
    intros [Hadm _]. apply Hadm_iff in Hadm. discriminate. }
  pose proof (proj1 Hadm_iff eq_refl) as Hadm.
  destruct (tentative_returns b pid req p Hwf Hp Hpn Hreq Hlen Hlres) as (tRs & Hrun & HlRs & HRs);
    [intros r Hr; specialize (Hres r Hr);
     pose proof (Forall_entry_nonneg req r Hreq); lia | exact Hadm |].
  rewrite Hrun. cbn [mbind option_bind].
  destruct (hypothetical_well_formed b pid req p Hwf Hp Hpn Hreq Hlen Hadm)
    as (Hwfh & Havh & _).
  destruct (construct_well_formed (hypothetical b p req) (max b)
              (tentative_available b req) Hwfh (Havh Hav0)) as (tb & Hcons).
  change (allocation (hypothetical b p req)) with (tentative_allocation b p req) in Hcons.
  rewrite Hcons. cbn [mbind option_bind].
  destruct (construct_Some _ _ _ _ Hcons) as (HtA & HtM & HtAv).
  rewrite (isSafeState_same_tables tb (hypothetical b p req) HtA HtM HtAv).
  destruct (isSafeState (hypothetical b p req)) as [[]|] eqn:Hsafe.
  - cbn [mbind option_bind]. rewrite Hp. cbn [mbind option_bind].
    rewrite vset_lt by lia. cbn [mbind option_bind].
    destruct (tentative_loop _ _ _ _ _ _ _ _ _ Hrun) as (_ & HlAv & _ & _ & _ & HAv & HRs').
    destruct Hrect as (_ & _ & _ & _ & Hla).
    rewrite (give_back_returns req (available b) (resources b)); try assumption; try lia.
    + cbn [mbind option_bind]. fold (granted b p req).
      split; [left; reflexivity |]. split; [| reflexivity].
      intros _. split; [exact Hadm |].
      apply (isSafeState_true_iff _ Hwfh). exact Hsafe.
    + intros j Hj. split; [| specialize (Hres j Hj);
                              pose proof (Forall_entry_nonneg req j Hreq); lia].
      destruct Hrep as (_ & Havail & _). destruct (Havail j) as [_ Htot]; [lia |].
      pose proof (available_le_total b j Hnn). specialize (Hav0 j).
      unfold INT_MIN. lia.
  - split; [right; reflexivity |]. split; [discriminate |].
    intros [_ Hord]. apply (isSafeState_true_iff _ Hwfh) in Hord. congruence.
  - exfalso. destruct (isSafeState_result _ Hwfh)
      as (_ & _ & _ & _ & _ & _ & _ & _ & _ & [[_ Hr]|(_ & _ & _ & Hr)]); congruence.
Qed.

Lemma request_decision_witness :
  well_formed scenario_banker ∧
  requestResources 1 [1; 0; 2]%Z scenario_banker
    = Some (true, granted scenario_banker 1 [1; 0; 2]%Z) ∧
  ∃ order, safe_ordering (hypothetical scenario_banker 1 [1; 0; 2]%Z) order.
Proof.
  assert (requestResources 1 [1; 0; 2]%Z scenario_banker
          = Some (true, granted scenario_banker 1 [1; 0; 2]%Z)) as Hcall
    by (vm_compute; reflexivity).
  split; [exact scenario_banker_well_formed |]. split; [exact Hcall |].
  apply (request_decision scenario_banker 1 [1; 0; 2]%Z 1); try exact Hcall.
  - exact scenario_banker_well_formed.
  - intros r. do 4 (try destruct r as [|r]); vm_compute; congruence.
  - reflexivity.
  - vm_compute. lia.
  - reflexivity.
  - repeat constructor; lia.
  - vm_compute. lia.
  - vm_compute. lia.
  - intros r Hr. simpl in Hr.
    do 3 (try destruct r as [|r]); try lia; vm_compute; split; congruence.
Defined.

(** X16 — The data-model invariants survive the calls that respect them:
    a granted request for non-negative amounts whose raised column totals
    still fit an [int], and a returning release of amounts between 0 and
    what the process holds, both take a well-formed state to a
    well-formed state. *)
Theorem valid_calls_keep_well_formed pid v b b' :
  well_formed b →
  (Forall (λ d, (0 ≤ d)%Z) v ∧
   (∀ r, r < numResources b → (total b r + entry v r ≤ INT_MAX)%Z) ∧
   requestResources pid v b = Some (true, b')) ∨
  ((∀ p r, index pid = Some p → (0 ≤ entry v r ≤ cell (allocation b) p r)%Z) ∧
   releaseResources pid v b = Some (tt, b')) →
  well_formed b'.
Proof.
  intros Hwf [(Hpos & Hcap & Hcall) | (Hvalid & Hcall)].
  - exact (grant_well_formed pid v b b' Hwf Hpos Hcap Hcall).
  - exact (release_well_formed pid v b b' Hwf Hvalid Hcall).
Qed.

Lemma valid_calls_keep_well_formed_witness :
  well_formed scenario_banker ∧
  requestResources 1 [1; 0; 2]%Z scenario_banker = Some (true, scenario_granted) ∧
  well_formed scenario_granted.
Proof.
  assert (Forall (λ d, (0 ≤ d)%Z) [1; 0; 2]%Z) as Hpos by (repeat constructor; lia).
  assert (∀ r, r < numResources scenario_banker →
            (total scenario_banker r + entry [1; 0; 2]%Z r ≤ INT_MAX)%Z) as Hcap.
  { intros r Hr. vm_compute in Hr.
    do 3 (try destruct r as [|r]); try lia; vm_compute; congruence. }
  split; [exact scenario_banker_well_formed |]. split; [exact scenario_first_request |].
  exact (valid_calls_keep_well_formed 1 [1; 0; 2]%Z scenario_banker scenario_granted
           scenario_banker_well_formed
           (or_introl (conj Hpos (conj Hcap scenario_first_request)))).
Defined.

(** X17 — Requests never consume availability.  Along any sequence of
    calls that return, [available[r]] and [resources[r]] end at their
    initial values plus the amounts given back by the releases of the
    sequence: every grant has put back what it took. *)
Theorem available_only_moves_by_releases ops r0 b g b' :
  run ops r0 b = Some (g, b') →
  ∀ r, entry (available b') r = (entry (available b) r + released ops r)%Z ∧
       entry (resources b') r = (entry (resources b) r + released ops r)%Z.
Proof.
  revert b g. induction ops as [|[pid req|pid rel] ops IH]; intros b g H r; simpl in H.
  - inversion H. simpl. lia.
  - apply bind_Some_inv in H. destruct H as ([ok b1] & Hcall & H).
    apply bind_Some_inv in H. destruct H as ([g2 b2] & Hrest & H).
    inversion H. subst b2. clear H.
    destruct (IH _ _ Hrest r) as [HA HR]. simpl. rewrite HA, HR.
    destruct ok.
    + destruct (requestResources_granted _ _ _ _ Hcall)
        as (p & tb & _ & _ & _ & _ & HAv1 & HR1 & _). rewrite HAv1, HR1. auto.
    + rewrite (requestResources_false _ _ _ _ Hcall). auto.
  - apply bind_Some_inv in H. destruct H as ([[] b1] & Hcall & H).
    destruct (IH _ _ H r) as [HA HR]. simpl. rewrite HA, HR.
    destruct (releaseResources_Some _ _ _ _ Hcall)
      as (p & _ & _ & _ & _ & _ & _ & _ & _ & _ & HAv1 & HR1).
    rewrite HAv1, HR1. lia.
Qed.

Lemma available_only_moves_by_releases_witness :
  run [Request 1 [1; 0; 2]%Z; Request 0 [4; 3; 1]%Z; Release 1 [3; 0; 2]%Z]
      0 scenario_banker
    = Some (1%Z, mkBanker [[0; 1; 0]; [0; 0; 0]; [3; 0; 2]; [2; 1; 1]; [0; 0; 2]]%Z
                   scenario_max [6; 3; 4]%Z [10; 2; 7]%Z
                   [false; false; false; false; false]) ∧
  entry [6; 3; 4]%Z 0
    = (entry (available scenario_banker) 0
       + released [Request 1 [1; 0; 2]%Z; Request 0 [4; 3; 1]%Z; Release 1 [3; 0; 2]%Z] 0)%Z.
Proof.
  assert (run [Request 1 [1; 0; 2]%Z; Request 0 [4; 3; 1]%Z; Release 1 [3; 0; 2]%Z]
            0 scenario_banker
          = Some (1%Z, mkBanker [[0; 1; 0]; [0; 0; 0]; [3; 0; 2]; [2; 1; 1]; [0; 0; 2]]%Z
                         scenario_max [6; 3; 4]%Z [10; 2; 7]%Z
                         [false; false; false; false; false])) as Hrun
    by (vm_compute; reflexivity).
  split; [exact Hrun |].
  exact (proj1 (available_only_moves_by_releases _ _ _ _ _ Hrun 0)).
Defined.

(** * Soundness of the scan on any state *)

Lemma need_matrix_sound b n m need :
  need_matrix b n m = Some need →
  ∀ p r, p < n → r < m → cell need p r = Need b p r.
Proof.
  unfold need_matrix. intros Hrun.
  apply (for_loop_inv (λ i nd,
    ∀ p r, p < i → r < m → cell nd p r = Need b p r) _ _ _ _ Hrun).
  - intros p r Hp. lia.
  - clear Hrun need. intros i t t' Hi Hdone Hrow.
    pose (Q := λ (j : nat) (nd : list (list Z)),
            (∀ p r, p < i → r < m → cell nd p r = Need b p r) ∧
            (∀ r, r < j → cell nd i r = Need b i r)).
    assert (Q m t') as [Hdone' Hrow'].
    { apply (for_loop_inv Q _ _ _ _ Hrow); unfold Q.
      - split; [exact Hdone | intros r Hr; lia].
      - intros j u u' Hj [Hd Hr] Hcell.
        unfold need_cell in Hcell. simplify_option_eq. unpack. read_entries.
        split.
        + intros p r Hp Hrm. rewrite cell_insert by assumption.
          rewrite decide_False by lia. apply Hd; assumption.
        + intros r Hrj. rewrite cell_insert by assumption.
          destruct (decide (r = j)) as [->|Hne].
          * rewrite decide_True by auto. unfold Need. congruence.
          * rewrite decide_False by tauto. apply Hr. lia. }
    intros p r Hp Hr. destruct (decide (p = i)) as [->|Hne].
    + apply Hrow'. exact Hr.
    + apply Hdone'; [lia | exact Hr].
Qed.

Lemma can_execute_true need_i w j cnt :
  can_execute need_i w j cnt = Some true →
  ∀ r, j ≤ r < j + cnt → (entry need_i r ≤ entry w r)%Z.
Proof.
  revert j. induction cnt as [|cnt IH]; intros j H r Hr; [lia |].
  simpl in H.
  apply bind_Some_inv in H. destruct H as (n & Hn & H).
  apply bind_Some_inv in H. destruct H as (x & Hx & H).
  destruct (Z.gtb_spec n x) as [Hgt|Hle]; [discriminate |].
  destruct (decide (r = j)) as [->|Hne]; [| apply (IH (S j) H); lia].
  rewrite (entry_lookup _ _ _ Hn), (entry_lookup _ _ _ Hx). exact Hle.
Qed.

Lemma work_loop_sound b i m w w' :
  for_loop m (work_cell b i) w = Some w' →
  ∀ r, r < m → entry w' r = (entry w r + cell (allocation b) i r)%Z.
Proof.
  intros Hrun.
  pose (Q := λ (j : nat) (t : list Z),
          ∀ r, entry t r =
            (entry w r + if decide (r < j)%nat then cell (allocation b) i r else 0)%Z).
  assert (Q m w') as Hq.
  { apply (for_loop_inv Q _ _ _ _ Hrun); unfold Q.
    - intros r. rewrite decide_False by lia. lia.
    - intros j t t' Hj Ht Hcell.
      unfold work_cell in Hcell. simplify_option_eq. unpack. read_entries.
      intros r. rewrite entry_insert by assumption. rewrite !Ht.
      repeat case_decide; subst; try lia.
      rewrite Ht, decide_False in * by lia. lia. }
  intros r Hr. rewrite Hq, decide_True by exact Hr. reflexivity.
Qed.

Lemma scan_body_sound b need i t t' :
  (∀ p r, p < numProcesses b → r < numResources b → cell need p r = Need b p r) →
  scan_sound b t →
  scan_body b need (numResources b) i t = Some t' →
  scan_sound b t'.
Proof.
  intros Hneed Hinv H. pose proof Hinv as (Hls & order & Hnd & Hmarks & Hcount & Hwork & Hvalid).
  unfold scan_body in H.
  apply bind_Some_inv in H. destruct H as ([] & Hs & H); [inversion H; subst; exact Hinv |].
  apply bind_Some_inv in H. destruct H as (nrow & Hnrow & H).
  apply bind_Some_inv in H. destruct H as ([] & Hc & H); [| inversion H; subst; exact Hinv].
  apply bind_Some_inv in H. destruct H as (s' & Hset & H).
  apply bind_Some_inv in H. destruct H as (w' & Hw & H).
  apply vset_Some in Hset. destruct Hset as [Hi ->].
  inversion H. subst t'. clear H.
  assert (i < numProcesses b) as Hin by lia.
  assert (∀ r, r < numResources b → (Need b i r ≤ entry (work t) r)%Z) as Hex.
  { intros r Hr. rewrite <- Hneed by assumption. rewrite (cell_row _ _ _ _ Hnrow).
    apply (can_execute_true _ _ _ _ Hc). lia. }
  assert (i ∉ order) as Hfresh.
  { intros Hc'. apply Hmarks in Hc'. congruence. }
  split; [simpl; rewrite length_insert; exact Hls |].
  exists (order ++ [i]). simpl. split; [| split; [| split; [| split]]].
  - apply NoDup_app. split; [exact Hnd |]. split; [| apply NoDup_singleton].
    intros x Hx Hxi. apply list_elem_of_singleton in Hxi. subst. tauto.
  - intros p. rewrite elem_of_app, list_elem_of_singleton, Hmarks.
    destruct (decide (p = i)) as [->|Hne].
    + rewrite list_lookup_insert_eq by lia. tauto.
    + rewrite list_lookup_insert_ne by congruence. tauto.
  - rewrite length_app. simpl. lia.
  - intros r Hr. rewrite (work_loop_sound _ _ _ _ _ Hw r Hr), Hwork by exact Hr.
    rewrite held_app. unfold held at 3. simpl. lia.
  - intros k p Hk r Hr. unfold work_before.
    destruct (decide (k < length order)) as [Hlt|Hge].
    + rewrite lookup_app_l in Hk by exact Hlt.
      rewrite take_app_le by lia. apply (Hvalid k p Hk r Hr).
    + pose proof (lookup_lt_Some _ _ _ Hk) as Hklen.
      rewrite length_app in Hklen. simpl in Hklen.
      assert (k = length order) as -> by lia.
      rewrite lookup_app_r in Hk by lia.
      rewrite Nat.sub_diag in Hk. simpl in Hk. inversion Hk. subst p.
      rewrite take_app_length. rewrite <- Hwork by exact Hr. apply Hex. exact Hr.
Qed.

Lemma do_while_sound fuel b need st st' :
  (∀ p r, p < numProcesses b → r < numResources b → cell need p r = Need b p r) →
  scan_sound b st →
  do_while fuel b need (numProcesses b) (numResources b) st = Exited st' →
  scan_sound b st'.
Proof.
  intros Hneed. revert st. induction fuel as [|fuel IH]; intros st Hinv H; [discriminate |].
  simpl in H.
  destruct (scan_pass b need (numProcesses b) (numResources b) st) as [st1|] eqn:Hpass;
    [| discriminate].
  assert (scan_sound b st1) as Hinv1.
  { unfold scan_pass in Hpass.
    apply (for_loop_inv (λ (_ : nat) t, scan_sound b t) _ _ _ _ Hpass).
    - exact Hinv.
    - intros i t t' _ Ht Hbody. exact (scan_body_sound b need i t t' Hneed Ht Hbody). }
  destruct (negb (finished st1) && (count st1 <? numProcesses b)).
  - exact (IH st1 Hinv1 H).
  - inversion H. subst. exact Hinv1.
Qed.

(** X18 — Soundness of [isSafeState] needs no assumption on the state:
    whenever it returns true, on any tables and with any values, there is
    an ordering of all processes in which every Need is covered by
    [available] plus the allocations of the processes placed earlier. *)
Theorem isSafeState_sound b :
  isSafeState b = Some true → ∃ order, safe_ordering b order.
Proof.
  unfold isSafeState. intros H.
  apply bind_Some_inv in H. destruct H as (row0 & Hrow0 & H).
  apply bind_Some_inv in H. destruct H as (need & Hneed & H).
  rewrite <- (numResources_row0 b row0 Hrow0) in *. fold (numProcesses b) in *.
  destruct (do_while (S (numProcesses b)) b need (numProcesses b) (numResources b)
              (scan_init b (numProcesses b))) as [st| |] eqn:Hloop; try discriminate.
  destruct (Nat.ltb_spec (count st) (numProcesses b)) as [Hlt|Hge]; [discriminate |].
  assert (scan_sound b st) as (Hls & order & Hnd & Hmarks & Hcount & _ & Hvalid).
  { apply (do_while_sound _ b need _ st (need_matrix_sound _ _ _ _ Hneed)) in Hloop;
      [exact Hloop |].
    split; [apply length_replicate |].
    exists []. simpl. split; [apply NoDup_nil_2 |]. split; [| split; [| split]].
    - intros p. rewrite elem_of_nil, lookup_replicate. split; [tauto |].
      intros [Hc _]. discriminate.
    - reflexivity.
    - intros r _. unfold held. simpl. lia.
    - intros k p Hk. rewrite lookup_nil in Hk. discriminate. }
  exists order. split; [| exact Hvalid].
  apply submseteq_length_Permutation; [| rewrite length_seq; lia].
  apply NoDup_submseteq; [exact Hnd |].
  intros p Hp. apply elem_of_seq. apply Hmarks, lookup_lt_Some in Hp. lia.
Qed.

Lemma isSafeState_sound_witness :
  isSafeState (mkBanker [[-2]; [2]; [0]]%Z [[1]; [2]; [4]]%Z [2]%Z [3]%Z
                 [false; false; false]) = Some true ∧
  ∃ order, safe_ordering (mkBanker [[-2]; [2]; [0]]%Z [[1]; [2]; [4]]%Z [2]%Z [3]%Z
                            [false; false; false]) order.
Proof.
  assert (isSafeState (mkBanker [[-2]; [2]; [0]]%Z [[1]; [2]; [4]]%Z [2]%Z [3]%Z
                         [false; false; false]) = Some true) as Hsafe
    by (vm_compute; reflexivity).
  split; [exact Hsafe |].
  exact (isSafeState_sound _ Hsafe).
Defined.
